(** * Patterns-guide: a shallow embedding of the tutorial snippets

    The repository is a gallery of JavaScript design-pattern snippets.
    Each snippet is embedded as it is written: JavaScript numbers are
    IEEE-754 binary64 values, strings are byte strings (UTF-8), objects
    live in a heap addressed by locations, static class fields are
    components of an explicit program state, [console.log] appends to a
    log and [throw] is an abrupt completion. *)

From Stdlib Require Import ZArith Ascii Floats.SpecFloat.
From stdpp Require Import gmap strings list.


(** ** JavaScript values shared by the snippets *)

Module JS.

(** A JavaScript number is a binary64 float: 53 bits of precision,
    exponents below 1024.  [SpecFloat] gives the executable IEEE-754
    operations (round to nearest, ties to even). *)
Definition number : Type := spec_float.
Definition prec : Z := 53.
Definition emax : Z := 1024.

Definition NaN : number := S754_nan.

(** The numeric literal [z]. *)
Definition of_Z (z : Z) : number := binary_normalize prec emax z 0 false.

(** [a + b] and [a - b] on two numbers. *)
Definition add (a b : number) : number := SFadd prec emax a b.
Definition sub (a b : number) : number := SFsub prec emax a b.

(** Errors: [throw new Error(msg)] of the snippets, the [TypeError]
    the engine raises when a value that is not a function is called,
    and the [RangeError] it raises when the call stack is exhausted.
    The engine's own messages are implementation-defined and not
    recorded. *)
Inductive error : Type :=
| Error (message : string)
| TypeError
| RangeError.

(** Outcome of running a piece of code: a value, or a thrown error. *)
Inductive completion (A : Type) : Type :=
| Normal (v : A)
| Throw (e : error).
Arguments Normal {A} v.
Arguments Throw {A} e.

(** Effectful code threads a state [S] (a console, a heap, a record
    of static fields) and either completes with a value or throws; a
    thrown error skips the rest of a sequence but keeps the state
    reached before it. *)
Definition M (S A : Type) : Type := S -> completion A * S.

Definition ret {S A} (v : A) : M S A := fun s => (Normal v, s).
Definition throw {S A} (e : error) : M S A := fun s => (Throw e, s).
Definition bind {S A B} (m : M S A) (k : A -> M S B) : M S B :=
  fun s =>
    match m s with
    | (Normal v, s') => k v s'
    | (Throw e, s') => (Throw e, s')
    end.
Definition get {S} : M S S := fun s => (Normal s, s).
Definition modify {S} (f : S -> S) : M S unit := fun s => (Normal tt, f s).

(** The console is the list of lines printed so far, oldest first. *)
Definition console : Type := list string.
Definition console_log (line : string) : M console unit :=
  modify (fun c => c ++ [line]).

(** [array.forEach(callback)] over the elements in index order; a
    callback that throws ends the traversal. *)
Fixpoint forEach {S A} (array : list A) (callback : A -> M S unit)
    : M S unit :=
  match array with
  | [] => ret tt
  | x :: rest => bind (callback x) (fun _ => forEach rest callback)
  end.

(** Objects are addressed by locations; [===] on two objects compares
    their locations. *)
Definition loc : Type := positive.

(** Calling the result of a property read: [undefined] is not
    callable. *)
Definition call {S A} (callee : option (M S A)) : M S A :=
  match callee with
  | Some body => body
  | None => throw TypeError
  end.

End JS.

Declare Scope js_scope.
Delimit Scope js_scope with js.
Notation "m1 ;; m2" := (JS.bind m1 (fun _ => m2))
  (at level 100, m2 at level 200, right associativity) : js_scope.
Notation "x <- m1 ;; m2" := (JS.bind m1 (fun x => m2))
  (at level 100, m1 at next level, m2 at level 200, right associativity)
  : js_scope.

(** ** Adapter: [OldCalc], [NewCalc], [CalcAdapter] *)

Module Adapter.
Import JS.

(** [class OldCalc]: no fields. *)
Inductive OldCalc : Type := new_OldCalc.

Definition OldCalc_operations (this : OldCalc) (t1 t2 : number)
    (operation : string) : number :=
  if String.eqb operation "add" then add t1 t2
  else if String.eqb operation "sub" then sub t1 t2
  else NaN.

(** [class NewCalc]: no fields, one method per operation. *)
Inductive NewCalc : Type := new_NewCalc.

Definition NewCalc_add (this : NewCalc) (t1 t2 : number) : number :=
  add t1 t2.
Definition NewCalc_sub (this : NewCalc) (t1 t2 : number) : number :=
  sub t1 t2.

(** [class CalcAdapter]: the constructor stores a [NewCalc]. *)
Record CalcAdapter : Type := { calc : NewCalc }.

Definition new_CalcAdapter : CalcAdapter := {| calc := new_NewCalc |}.

Definition CalcAdapter_operations (this : CalcAdapter) (t1 t2 : number)
    (operation : string) : number :=
  if String.eqb operation "add" then NewCalc_add (calc this) t1 t2
  else if String.eqb operation "sub" then NewCalc_sub (calc this) t1 t2
  else NaN.

End Adapter.

(** ** Facade: [TaskFacade] and its three helpers, [AudioPlayerFacade] *)

Module Facade.
Import JS.

Section Platform.

(** [SimpleRecord] belongs to the hosting platform, not to the
    repository: the snippet only relies on [new SimpleRecord(table)
    .insert()] acting on the platform's store and returning the
    identifier of the inserted record. *)
Variable world : Type.
Variable record_id : Type.
Variable truthy : record_id -> bool.
Variable SimpleRecord_insert : string -> M world record_id.

(** The values the helpers return: a record identifier, or the
    boolean [!!id]. *)
Inductive value : Type :=
| VRecord (r : record_id)
| VBool (b : bool).

(** A member of a class body.  A member written without [static]
    is a property of the prototype; one written with [static] is a
    property of the constructor itself. *)
Record member : Type :=
  { m_name : string; m_static : bool; m_body : M world value }.

Definition class_decl : Type := list member.

Definition TaskApproval : class_decl :=
  [ {| m_name := "createApproval"; m_static := false;
       m_body := (approval <- SimpleRecord_insert "approval" ;;
                  ret (VRecord approval))%js |} ].

Definition TaskIndication : class_decl :=
  [ {| m_name := "createIndication"; m_static := false;
       m_body := (indication <- SimpleRecord_insert "indication" ;;
                  ret (VRecord indication))%js |} ].

Definition TaskNotification : class_decl :=
  [ {| m_name := "sendNotification"; m_static := false;
       m_body := (notification <- SimpleRecord_insert "notification" ;;
                  ret (VBool (truthy notification)))%js |} ].

(** An instance: its class and the [taskId] its constructor stored
    ([None] is [undefined], the value of a missing argument). *)
Record instance : Type :=
  { class_of : class_decl; taskId : option string }.

Definition new_instance (c : class_decl) (id : option string) : instance :=
  {| class_of := c; taskId := id |}.

Definition find_member (c : class_decl) (static : bool) (name : string)
    : option (M world value) :=
  m_body <$>
    List.find (fun m => String.eqb (m_name m) name
                        && Bool.eqb (m_static m) static) c.

(** [C.name], a property read on the class constructor [C]. *)
Definition static_get (c : class_decl) (name : string)
    : option (M world value) :=
  find_member c true name.

(** [o.name], a property read on an instance, found on the
    prototype of its class. *)
Definition method_get (o : instance) (name : string)
    : option (M world value) :=
  find_member (class_of o) false name.

(** [class TaskFacade]: the constructor stores one helper of each
    class, built without arguments. *)
Record TaskFacade : Type :=
  { taskApproval : instance;
    taskIndication : instance;
    taskNotification : instance }.

Definition new_TaskFacade : TaskFacade :=
  {| taskApproval := new_instance TaskApproval None;
     taskIndication := new_instance TaskIndication None;
     taskNotification := new_instance TaskNotification None |}.

(** [startBusinessProcess] as the source has it: the three calls
    are made on the classes [TaskApproval], [TaskIndication] and
    [TaskNotification], not on the helpers stored in [this]. *)
Definition startBusinessProcess (this : TaskFacade)
    : M world (list value) :=
  (approval <- call (static_get TaskApproval "createApproval") ;;
   indication <- call (static_get TaskIndication "createIndication") ;;
   notificationIsSend <-
     call (static_get TaskNotification "sendNotification") ;;
   ret [approval; indication; notificationIsSend])%js.

(** The forwarding the documentation describes, for comparison:
    the same three calls made on the stored helpers. *)
Definition startBusinessProcess_on_helpers (this : TaskFacade)
    : M world (list value) :=
  (approval <- call (method_get (taskApproval this) "createApproval") ;;
   indication <-
     call (method_get (taskIndication this) "createIndication") ;;
   notificationIsSend <-
     call (method_get (taskNotification this) "sendNotification") ;;
   ret [approval; indication; notificationIsSend])%js.

End Platform.

Arguments VRecord {record_id} r.
Arguments VBool {record_id} b.
Arguments TaskApproval {world record_id} SimpleRecord_insert.
Arguments TaskIndication {world record_id} SimpleRecord_insert.
Arguments TaskNotification {world record_id} truthy SimpleRecord_insert.
Arguments static_get {world record_id} c name.
Arguments method_get {world record_id} o name.
Arguments new_TaskFacade {world record_id} truthy SimpleRecord_insert.
Arguments startBusinessProcess {world record_id} truthy SimpleRecord_insert
  this.
Arguments startBusinessProcess_on_helpers {world record_id} this.

(** The audio player of the facade write-up: three helpers that
    print, and a facade that forwards to the helpers it stored. *)
Inductive AudioDecoder : Type := new_AudioDecoder.
Inductive AudioProcessor : Type := new_AudioProcessor.
Inductive AudioOutput : Type := new_AudioOutput.

Definition decode (this : AudioDecoder) (file : string) : M console string :=
  (console_log ("Декодируем аудиофайл: " +:+ file) ;;
   ret "decoded_audio_stream")%js.

Definition process (this : AudioProcessor) (stream : string)
    : M console string :=
  (console_log "Обрабатываем аудиопоток..." ;;
   ret "processed_audio")%js.

Definition play (this : AudioOutput) (audio : string) : M console unit :=
  console_log ("Воспроизводим аудио: " +:+ audio).

Record AudioPlayerFacade : Type :=
  { decoder : AudioDecoder; processor : AudioProcessor; output : AudioOutput }.

Definition new_AudioPlayerFacade : AudioPlayerFacade :=
  {| decoder := new_AudioDecoder;
     processor := new_AudioProcessor;
     output := new_AudioOutput |}.

Definition playSong (this : AudioPlayerFacade) (filename : string)
    : M console unit :=
  (stream <- decode (decoder this) filename ;;
   processedAudio <- process (processor this) stream ;;
   play (output this) processedAudio)%js.

End Facade.

(** ** Template method ([Beverage]) and strategy ([PaymentStrategy]) *)

Module TemplateMethod.
Import JS.

(** The steps of the recipe.  None of their bodies reads [this]. *)
Inductive step : Type := boilWater | brew | addCondiments | stir.

(** [class Beverage]: two concrete steps, two that must be
    overridden. *)
Definition Beverage_step (m : step) : M console unit :=
  match m with
  | boilWater => console_log "Кипятим воду"
  | brew => throw (Error "Метод brew() должен быть реализован")
  | addCondiments =>
      throw (Error "Метод addCondiments() должен быть реализован")
  | stir => console_log "Перемешиваем напиток"
  end.

(** The body of a class that extends [Beverage], directly or not:
    the steps it declares itself. *)
Definition class_body : Type := step -> option (M console unit).

Definition Tea : class_body := fun m =>
  match m with
  | brew => Some (console_log "Завариваем чайные листья")
  | addCondiments => Some (console_log "Добавляем лимон")
  | _ => None
  end.

Definition Coffee : class_body := fun m =>
  match m with
  | brew => Some (console_log "Завариваем кофе")
  | addCondiments => Some (console_log "Добавляем молоко и сахар")
  | _ => None
  end.

(** A receiver is known by its prototype chain: the bodies of its
    class and of its ancestors below [Beverage], most derived first.
    A plain [Beverage] has the empty chain. *)
Definition receiver : Type := list class_body.

Definition new_Beverage : receiver := [].
Definition new_Tea : receiver := [Tea].
Definition new_Coffee : receiver := [Coffee].

(** [this.m()]: the first declaration of [m] along the chain, and
    [Beverage]'s own when no class below it declares [m]. *)
Fixpoint invoke (this : receiver) (m : step) : M console unit :=
  match this with
  | [] => Beverage_step m
  | body :: ancestors =>
      match body m with
      | Some code => code
      | None => invoke ancestors m
      end
  end.

(** Whether some class along the chain declares [m] itself. *)
Definition overrides (this : receiver) (m : step) : bool :=
  existsb (fun body : class_body => bool_decide (is_Some (body m))) this.

(** The template method, inherited unchanged by every subclass. *)
Definition prepare (this : receiver) : M console unit :=
  (invoke this boilWater ;;
   invoke this brew ;;
   invoke this addCondiments ;;
   invoke this stir)%js.

End TemplateMethod.

Module Strategy.
Import JS.

Section NumberToString.

(** [`${amount}`] is the engine's conversion of a number to a
    string. *)
Variable number_to_string : number -> string.

(** [class PaymentStrategy]: [pay] must be overridden. *)
Definition PaymentStrategy_pay (amount : number) : M console unit :=
  throw (Error "Метод pay() должен быть реализован").

(** A class extending [PaymentStrategy] declares [pay] or not. *)
Definition class_body : Type := option (number -> M console unit).

Definition CreditCardPayment : class_body :=
  Some (fun amount =>
    console_log ("Оплата " +:+ number_to_string amount
                 +:+ " руб. кредитной картой")).

Definition PayPalPayment : class_body :=
  Some (fun amount =>
    console_log ("Оплата " +:+ number_to_string amount
                 +:+ " руб. через PayPal")).

Definition CryptoPayment : class_body :=
  Some (fun amount =>
    console_log ("Оплата " +:+ number_to_string amount
                 +:+ " руб. криптовалютой")).

Definition receiver : Type := list class_body.

Definition new_PaymentStrategy : receiver := [].

(** [this.pay(amount)] along the prototype chain. *)
Fixpoint pay (this : receiver) (amount : number) : M console unit :=
  match this with
  | [] => PaymentStrategy_pay amount
  | Some code :: _ => code amount
  | None :: ancestors => pay ancestors amount
  end.

Definition overrides_pay (this : receiver) : bool :=
  existsb (fun body : class_body => bool_decide (is_Some body)) this.

End NumberToString.

End Strategy.

(** ** Observer: [Subject] and [Observer] *)

Module ObserverPattern.
Import JS.

(** An action object: its [type], and its [value] when it has one
    ([None] is [undefined], the value of a missing property). *)
Record action : Type := { type : string; value : option number }.

(** [ToNumber] on a number or [undefined]. *)
Definition to_number (v : option number) : number :=
  match v with
  | Some n => n
  | None => NaN
  end.

(** [class Observer]. *)
Record Observer : Type := { state : number; initialState : number }.

(** [new Observer(state)]; the parameter defaults to [1]. *)
Definition new_Observer (arg : option number) : Observer :=
  let state := default (of_Z 1) arg in
  {| state := state; initialState := state |}.

Definition Observer_update (this : Observer) (a : action) : Observer :=
  if String.eqb (type a) "PLUS" then
    {| state := add (state this) (of_Z 1);
       initialState := initialState this |}
  else if String.eqb (type a) "MINUS" then
    {| state := sub (state this) (of_Z 1);
       initialState := initialState this |}
  else if String.eqb (type a) "MULTI_PLUS" then
    {| state := add (state this) (to_number (value a));
       initialState := initialState this |}
  else
    {| state := initialState this; initialState := initialState this |}.

(** The observers live in the heap.  [calls] is the history of the
    [update] invocations made so far, oldest first: bookkeeping that no
    code reads, kept to say who was called and when. *)
Record world : Type :=
  { heap : gmap loc Observer; calls : list (loc * action) }.

(** [observer.update(action)] on the object at [observer]. *)
Definition update (observer : loc) (a : action) : M world unit :=
  fun w =>
    match heap w !! observer with
    | Some this =>
        (Normal tt,
         {| heap := <[observer := Observer_update this a]> (heap w);
            calls := calls w ++ [(observer, a)] |})
    | None => (Throw TypeError, w)
    end.

(** [class Subject]. *)
Record Subject : Type := { observers : list loc }.

Definition new_Subject : Subject := {| observers := [] |}.

Definition subscribe (this : Subject) (observer : loc) : Subject :=
  {| observers := observers this ++ [observer] |}.

Definition unsubscribe (this : Subject) (observer : loc) : Subject :=
  {| observers := filter (fun obs => obs <> observer) (observers this) |}.

Definition fire (this : Subject) (a : action) : M world unit :=
  forEach (observers this) (fun observer => update observer a).

(** How many times [observer] occurs in a list of subscriptions, and
    how many of the recorded calls went to it. *)
Definition occurrences (observer : loc) (l : list loc) : nat :=
  length (filter (fun obs => obs = observer) l).

Definition calls_to (observer : loc) (history : list (loc * action)) : nat :=
  occurrences observer history.*1.

(** Every subscribed location holds an observer. *)
Definition subscribed_alive (this : Subject) (w : world) : Prop :=
  Forall (fun observer => is_Some (heap w !! observer)) (observers this).

End ObserverPattern.

(** ** Observer: [NewsPublisher] and [NewsSubscriber] *)

Module News.
Import JS.

(** [class NewsSubscriber]. *)
Record NewsSubscriber : Type := { name : string }.

Record world : Type :=
  { heap : gmap loc NewsSubscriber; console : JS.console }.

(** The double quote character, and [`${news}`] for a string or
    [null]. *)
Definition dquote : string := String "034"%char EmptyString.

Definition news_to_string (news : option string) : string :=
  match news with
  | Some text => text
  | None => "null"
  end.

Definition NewsSubscriber_line (this : NewsSubscriber)
    (news : option string) : string :=
  name this +:+ " получил новость: " +:+ dquote
    +:+ news_to_string news +:+ dquote.

(** [subscriber.update(news)] on the object at [subscriber]. *)
Definition update (subscriber : loc) (news : option string) : M world unit :=
  fun w =>
    match heap w !! subscriber with
    | Some this =>
        (Normal tt,
         {| heap := heap w;
            console := console w ++ [NewsSubscriber_line this news] |})
    | None => (Throw TypeError, w)
    end.

(** [class NewsPublisher]; [news] starts as [null]. *)
Record NewsPublisher : Type :=
  { subscribers : list loc; news : option string }.

Definition new_NewsPublisher : NewsPublisher :=
  {| subscribers := []; news := None |}.

Definition subscribe (this : NewsPublisher) (observer : loc)
    : NewsPublisher :=
  {| subscribers := subscribers this ++ [observer]; news := news this |}.

Definition unsubscribe (this : NewsPublisher) (observer : loc)
    : NewsPublisher :=
  {| subscribers := filter (fun sub => sub <> observer) (subscribers this);
     news := news this |}.

Definition notify (this : NewsPublisher) : M world unit :=
  forEach (subscribers this) (fun subscriber => update subscriber (news this)).

Definition setNews (this : NewsPublisher) (text : string)
    : M world NewsPublisher :=
  let this' := {| subscribers := subscribers this; news := Some text |} in
  (notify this' ;; ret this')%js.

(** The line a subscriber prints, when the location holds one. *)
Definition line_of (w : world) (news : option string) (subscriber : loc)
    : option string :=
  (fun this => NewsSubscriber_line this news) <$> heap w !! subscriber.

Definition subscribed_alive (this : NewsPublisher) (w : world) : Prop :=
  Forall (fun subscriber => is_Some (heap w !! subscriber)) (subscribers this).

End News.

(** ** Observer: histories of subscriptions *)

Module Subscriptions.
Import JS.

(** What client code asks of a subject or of a publisher, one call
    after the other. *)
Inductive request : Type :=
| Subscribe (observer : loc)
| Unsubscribe (observer : loc).

#[global] Instance request_eq_dec : EqDecision request.
Proof. solve_decision. Defined.

Definition on_subject (stream : ObserverPattern.Subject) (r : request)
    : ObserverPattern.Subject :=
  match r with
  | Subscribe o => ObserverPattern.subscribe stream o
  | Unsubscribe o => ObserverPattern.unsubscribe stream o
  end.

Definition on_publisher (publisher : News.NewsPublisher) (r : request)
    : News.NewsPublisher :=
  match r with
  | Subscribe o => News.subscribe publisher o
  | Unsubscribe o => News.unsubscribe publisher o
  end.

(** The subscriptions a history has made and not taken back, in the
    order in which they were made: a subscription is in force when no
    later request unsubscribes its observer. *)
Fixpoint in_force (history : list request) : list loc :=
  match history with
  | [] => []
  | Subscribe o :: later =>
      if decide (Unsubscribe o ∈ later) then in_force later
      else o :: in_force later
  | Unsubscribe _ :: later => in_force later
  end.

End Subscriptions.

(** ** Decorator: [Text] and its decorators *)

Module Decorator.
Import JS.

(** The decorator classes: [TextDecorator] and its three subclasses. *)
Inductive decorator : Type :=
| TextDecorator
| BoldDecorator
| ItalicDecorator
| UnderlineDecorator.

(** An object is a [Text] with its [content], or a decorator with the
    component it wraps in its [text] field. *)
Inductive object : Type :=
| Text (content : string)
| Wrapper (class : decorator) (text : loc).

(** [new C(...)] stores a new object at an unused location. *)
Definition alloc (o : object) : M (gmap loc object) loc :=
  fun h => let l := fresh (dom h) in (Normal l, <[l := o]> h).

Definition new_Text (content : string) : M (gmap loc object) loc :=
  alloc (Text content).

Definition new_decorator (class : decorator) (text : loc)
    : M (gmap loc object) loc :=
  alloc (Wrapper class text).

(** Reading the receiver of a method call. *)
Definition deref (l : loc) : M (gmap loc object) object :=
  fun h =>
    match h !! l with
    | Some o => (Normal o, h)
    | None => (Throw TypeError, h)
    end.

(** [this.getContent()].  [stack] is the number of nested activations
    the engine still allows; when none is left the call raises a
    [RangeError], as runaway recursion does (a decorator made to wrap
    itself).  [super.getContent()] in the three subclasses is
    [TextDecorator]'s method, which forwards to [this.text]. *)
Fixpoint getContent (stack : nat) (this : loc) : M (gmap loc object) string :=
  match stack with
  | 0 => throw RangeError
  | S stack' =>
      (o <- deref this ;;
       match o with
       | Text content => ret content
       | Wrapper class text =>
           let super_getContent := getContent stack' text in
           match class with
           | TextDecorator => super_getContent
           | BoldDecorator =>
               inner <- super_getContent ;; ret ("<b>" +:+ inner +:+ "</b>")
           | ItalicDecorator =>
               inner <- super_getContent ;; ret ("<i>" +:+ inner +:+ "</i>")
           | UnderlineDecorator =>
               inner <- super_getContent ;; ret ("<u>" +:+ inner +:+ "</u>")
           end
       end)%js
  end.

(** [new BoldDecorator(new Text(s)).getContent()], keeping the
    location of the wrapped text to look at it afterwards. *)
Definition bold_text (stack : nat) (s : string)
    : M (gmap loc object) (loc * string) :=
  (simpleText <- new_Text s ;;
   boldText <- new_decorator BoldDecorator simpleText ;;
   content <- getContent stack boldText ;;
   ret (simpleText, content))%js.

(** [new UnderlineDecorator(new ItalicDecorator(new BoldDecorator(new
    Text(s)))).getContent()]. *)
Definition formattedText (stack : nat) (s : string)
    : M (gmap loc object) string :=
  (text <- new_Text s ;;
   bold <- new_decorator BoldDecorator text ;;
   italic <- new_decorator ItalicDecorator bold ;;
   underline <- new_decorator UnderlineDecorator italic ;;
   getContent stack underline)%js.

End Decorator.

(** ** Singleton: [Database.getInstance] and [SingletonProxy] *)

Module Database.
Import JS.

(** A [Database] object has no fields. *)
Inductive object : Type := DatabaseObject.

(** The static field [Database.instance] ([None] is [undefined]), the
    objects created so far, and the console. *)
Record world : Type :=
  { instance : option loc; heap : gmap loc object; console : JS.console }.

Definition start : world := {| instance := None; heap := ∅; console := [] |}.

Definition log (line : string) : M world unit :=
  modify (fun w => {| instance := instance w; heap := heap w;
                      console := console w ++ [line] |}).

(** The body of the private constructor. *)
Definition constructor (this : loc) : M world unit :=
  log "Подключение к базе данных...".

(** [new Database()]: a new object, then the constructor body. *)
Definition new_Database : M world loc :=
  (w <- get ;;
   let this := fresh (dom (heap w)) in
   modify (fun w => {| instance := instance w;
                       heap := <[this := DatabaseObject]> (heap w);
                       console := console w |}) ;;
   constructor this ;;
   ret this)%js.

Definition getInstance : M world (option loc) :=
  (w <- get ;;
   match instance w with
   | None =>
       db <- new_Database ;;
       modify (fun w => {| instance := Some db; heap := heap w;
                           console := console w |})
   | Some _ => ret tt
   end ;;
   w' <- get ;;
   ret (instance w'))%js.

(** [query] does not use its receiver. *)
Definition query (sql : string) : M world unit :=
  log ("Выполняем запрос: " +:+ sql).

(** Client code: any sequence of [Database.getInstance()] and
    [db.query(sql)] calls; [run] collects what the [getInstance] calls
    return, in order. *)
Inductive call : Type :=
| GetInstance
| Query (sql : string).

Fixpoint run (program : list call) : M world (list (option loc)) :=
  match program with
  | [] => ret []
  | GetInstance :: rest =>
      (db <- getInstance ;; results <- run rest ;; ret (db :: results))%js
  | Query sql :: rest => (query sql ;; run rest)%js
  end.

(** How many [getInstance] calls a program makes. *)
Definition getInstance_calls (program : list call) : nat :=
  sum_list (map (fun c => match c with GetInstance => 1 | Query _ => 0 end)
              program).

(** How many times the constructor body has run, read off the
    console. *)
Definition constructions (c : list string) : nat :=
  length (filter (fun line => line = "Подключение к базе данных...") c).

End Database.

Module Config.
Import JS.

(** A [Config] object with its [settings] field ([None] until the
    constructor assigns it), or the object literal stored there. *)
Inductive object : Type :=
| ConfigObject (settings : option loc)
| ObjectLiteral.

(** The static field [Config.instance] and the objects created so
    far. *)
Record world : Type := { instance : option loc; heap : gmap loc object }.

Definition start : world := {| instance := None; heap := ∅ |}.

Definition alloc (o : object) : M world loc :=
  fun w =>
    let l := fresh (dom (heap w)) in
    (Normal l, {| instance := instance w; heap := <[l := o]> (heap w) |}).

Definition set_instance (v : option loc) : M world unit :=
  modify (fun w => {| instance := v; heap := heap w |}).

Definition set_settings (this settings : loc) : M world unit :=
  modify (fun w =>
    {| instance := instance w;
       heap := <[this := ConfigObject (Some settings)]> (heap w) |}).

(** [new Config()]: the engine creates [this], then runs the
    constructor body; an object returned by the body replaces
    [this] as the result. *)
Definition new_Config : M world loc :=
  (this <- alloc (ConfigObject None) ;;
   w <- get ;;
   match instance w with
   | Some existing => ret existing
   | None =>
       settings <- alloc ObjectLiteral ;;
       set_settings this settings ;;
       set_instance (Some this) ;;
       ret this
   end)%js.

(** [new SingletonProxy()]: the [construct] trap, whose [target] is
    [Config].  A trap that does not return an object makes the engine
    throw a [TypeError]. *)
Definition new_SingletonProxy : M world loc :=
  (w <- get ;;
   match instance w with
   | None => c <- new_Config ;; set_instance (Some c)
   | Some _ => ret tt
   end ;;
   w' <- get ;;
   match instance w' with
   | Some c => ret c
   | None => throw TypeError
   end)%js.

(** Client code: any sequence of [new SingletonProxy()] and
    [new Config()]; [run] collects the objects obtained. *)
Inductive construction : Type :=
| NewSingletonProxy
| NewConfig.

Fixpoint run (program : list construction) : M world (list loc) :=
  match program with
  | [] => ret []
  | NewSingletonProxy :: rest =>
      (c <- new_SingletonProxy ;; results <- run rest ;; ret (c :: results))%js
  | NewConfig :: rest =>
      (c <- new_Config ;; results <- run rest ;; ret (c :: results))%js
  end.

(** The instance, once set, is a [Config] object whose [settings]
    were assigned. *)
Definition instance_is (w : world) (c : loc) : Prop :=
  instance w = Some c
  /\ exists settings, heap w !! c = Some (ConfigObject (Some settings)).

(** How many constructions a program makes. *)
Definition constructions (program : list construction) : nat :=
  length program.

End Config.

(** ** Decorator: chains of any length *)

Module TextChain.
Import JS Decorator.

(** What one decorator of class [class] makes of the content [inner]
    of its component. *)
Definition tagged (class : decorator) (inner : string) : string :=
  match class with
  | TextDecorator => inner
  | BoldDecorator => "<b>" +:+ inner +:+ "</b>"
  | ItalicDecorator => "<i>" +:+ inner +:+ "</i>"
  | UnderlineDecorator => "<u>" +:+ inner +:+ "</u>"
  end.

(** Client code wrapping [component] in decorators of the given
    classes, innermost first: [new C2(new C1(component))] for
    [[C1; C2]]. *)
Fixpoint wrap (classes : list decorator) (component : loc)
    : M (gmap loc object) loc :=
  match classes with
  | [] => ret component
  | class :: rest =>
      (decorated <- new_decorator class component ;; wrap rest decorated)%js
  end.

Definition decorated_text (stack : nat) (classes : list decorator)
    (s : string) : M (gmap loc object) string :=
  (text <- new_Text s ;;
   top <- wrap classes text ;;
   getContent stack top)%js.

End TextChain.

(** ** Decorator: [cacheDecorator] *)

Module CacheDecorator.
Import JS.

Section Decorated.

(** The argument lists and results of the decorated function, and
    [JSON.stringify] on an argument list, which the snippet uses as
    the cache key. *)
Variable args : Type.
Variable result : Type.
Variable stringify : args -> string.

(** The decorated function; it may print and it may throw. *)
Variable func : args -> M console result.

(** What the closure returned by [cacheDecorator(func)] captures and
    acts on: its [Map], and the console. *)
Record state : Type := { cache : gmap string result; out : list string }.

Definition start : state := {| cache := ∅; out := [] |}.

Definition log (line : string) : M state unit :=
  modify (fun st => {| cache := cache st; out := out st ++ [line] |}).

Definition cache_set (key : string) (r : result) : M state unit :=
  modify (fun st => {| cache := <[key := r]> (cache st); out := out st |}).

(** [func.apply(this, args)], acting on the console. *)
Definition apply_func (a : args) : M state result :=
  fun st =>
    match func a (out st) with
    | (c, out') => (c, {| cache := cache st; out := out' |})
    end.

(** The returned function. *)
Definition cached (a : args) : M state result :=
  let key := stringify a in
  (st <- get ;;
   match cache st !! key with
   | Some r => log ("Из кэша: " +:+ key) ;; ret r
   | None =>
       r <- apply_func a ;;
       cache_set key r ;;
       log ("Вычислено: " +:+ key) ;;
       ret r
   end)%js.

(** Client code: a sequence of calls, collecting the results. *)
Fixpoint calls (l : list args) : M state (list result) :=
  match l with
  | [] => ret []
  | a :: rest => (r <- cached a ;; rs <- calls rest ;; ret (r :: rs))%js
  end.

End Decorated.

Arguments cache {result} s.
Arguments out {result} s.
Arguments start {result}.
Arguments cached {args result} stringify func a.
Arguments calls {args result} stringify func l.

(** Every cached value is the value of [f] on some argument list
    with that key. *)
Definition cache_sound {args result : Type} (stringify : args -> string)
    (f : args -> result) (st : state result) : Prop :=
  forall k r, cache st !! k = Some r -> exists a, stringify a = k /\ r = f a.

(** The lines that report a computation. *)
Definition computed (line : string) : bool :=
  String.prefix "Вычислено: " line.

(** [heavyCalculation(a, b)]: the loop has no effect; a missing
    argument is [undefined] and makes the sum [NaN]. *)
Definition heavyCalculation (a : list number) : M console number :=
  ret (add (nth 0 a NaN) (nth 1 a NaN)).

End CacheDecorator.

(** ** Observer: [ReactiveState] *)

Module Reactive.
Import JS.

Section Callbacks.

(** The values held; the functions subscribed, by name; and what lies
    outside the state object (a console, a page). *)
Variable V : Type.
Variable callback : Type.
Variable W : Type.

(** A [ReactiveState] object holds its value and a reference to its
    array of subscribers; the array is an object of its own. *)
Inductive object : Type :=
| ReactiveState (_value : V) (_subscribers : loc)
| Array (items : list callback).

Record world : Type := { heap : gmap loc object; outside : W }.

(** What calling a subscribed function with a value does.  A callback
    is a closure: it may print, throw, and reach the state object and
    its array, so it acts on the whole world. *)
Variable invoke : callback -> V -> M world unit.

(** [new ReactiveState(value)]: the object, and the empty array its
    constructor creates. *)
Definition new_ReactiveState (value : V) : M world loc :=
  fun w =>
    let this := fresh (dom (heap w)) in
    let array := fresh ({[this]} ∪ dom (heap w) : gset loc) in
    (Normal this,
     {| heap := <[this := ReactiveState value array]>
                  (<[array := Array []]> (heap w));
        outside := outside w |}).

(** The field reads [this._value] and [this._subscribers]. *)
Definition this_value (this : loc) : M world V :=
  fun w =>
    match heap w !! this with
    | Some (ReactiveState v _) => (Normal v, w)
    | _ => (Throw TypeError, w)
    end.

Definition this_subscribers (this : loc) : M world loc :=
  fun w =>
    match heap w !! this with
    | Some (ReactiveState _ array) => (Normal array, w)
    | _ => (Throw TypeError, w)
    end.

(** [get value()]. *)
Definition value (this : loc) : M world V := this_value this.

(** [subscribe(callback)]: [push] extends the array in place. *)
Definition subscribe (this : loc) (cb : callback) : M world unit :=
  (array <- this_subscribers this ;;
   fun w =>
     match heap w !! array with
     | Some (Array items) =>
         (Normal tt,
          {| heap := <[array := Array (items ++ [cb])]> (heap w);
             outside := outside w |})
     | _ => (Throw TypeError, w)
     end)%js.

(** [array.forEach(cb => cb(this._value))] from index [k] on, with
    [remaining] indices to go.  [forEach] takes the length of the array
    once, before the first call, so elements pushed meanwhile are not
    visited; at each index it takes the element that the array holds
    at that moment, and passes over an index that the array has no
    longer.  The arrow function reads [this._value] when it is
    called. *)
Fixpoint forEach_from (this array : loc) (k remaining : nat)
    : M world unit :=
  match remaining with
  | 0 => ret tt
  | S remaining' =>
      fun w =>
        match heap w !! array with
        | Some (Array items) =>
            match items !! k with
            | Some cb =>
                ((v <- this_value this ;; invoke cb v) ;;
                 forEach_from this array (S k) remaining')%js w
            | None => forEach_from this array (S k) remaining' w
            end
        | _ => (Throw TypeError, w)
        end
  end.

Definition _notify (this : loc) : M world unit :=
  (array <- this_subscribers this ;;
   fun w =>
     match heap w !! array with
     | Some (Array items) => forEach_from this array 0 (length items) w
     | _ => (Throw TypeError, w)
     end)%js.

(** [set value(newValue)]: the assignment comes first and stays when a
    callback throws. *)
Definition set_value (this : loc) (newValue : V) : M world unit :=
  ((fun w =>
      match heap w !! this with
      | Some (ReactiveState _ array) =>
          (Normal tt,
           {| heap := <[this := ReactiveState newValue array]> (heap w);
              outside := outside w |})
      | _ => (Throw TypeError, w)
      end) ;;
   _notify this)%js.

(** A callback that changes neither the state object nor its array of
    subscribers, whatever else it does and however it completes. *)
Definition leaves_state_alone (this array : loc) (cb : callback) : Prop :=
  forall (v : V) (w : world),
    heap (invoke cb v w).2 !! this = heap w !! this
    /\ heap (invoke cb v w).2 !! array = heap w !! array.

End Callbacks.

Arguments ReactiveState {V callback} _value _subscribers.
Arguments Array {V callback} items.
Arguments heap {V callback W} w.
Arguments outside {V callback W} w.
Arguments new_ReactiveState {V callback W} value.
Arguments this_value {V callback W} this.
Arguments this_subscribers {V callback W} this.
Arguments value {V callback W} this.
Arguments subscribe {V callback W} this cb.
Arguments forEach_from {V callback W} invoke this array k remaining.
Arguments _notify {V callback W} invoke this.
Arguments set_value {V callback W} invoke this newValue.
Arguments leaves_state_alone {V callback W} invoke this array cb.

End Reactive.

(** ** Builder: [RequestBuilder] *)

Module Builder.
Import JS.

Section Body.

(** Whatever [setBody] is given. *)
Variable body_t : Type.

(** The fields of a [RequestBuilder].  [headers] refers to a plain
    object used as a dictionary; [body] is [None] for [null]. *)
Record RequestBuilder : Type :=
  { method : string; url : string; headers : loc; body : option body_t }.

(** The object [build()] returns: the builder's fields at that time,
    the [headers] reference included. *)
Record request : Type :=
  { r_method : string; r_url : string; r_headers : loc;
    r_body : option body_t }.

(** The builders and the header dictionaries created so far. *)
Record store : Type :=
  { builders : gmap loc RequestBuilder;
    dictionaries : gmap loc (gmap string string) }.

Definition start : store := {| builders := ∅; dictionaries := ∅ |}.

(** [new RequestBuilder()]. *)
Definition new_RequestBuilder : M store loc :=
  fun s =>
    let this := fresh (dom (builders s)) in
    let h := fresh (dom (dictionaries s)) in
    (Normal this,
     {| builders :=
          <[this := {| method := "GET"; url := ""; headers := h;
                       body := None |}]> (builders s);
        dictionaries := <[h := ∅]> (dictionaries s) |}).

(** Reading the receiver of a method call. *)
Definition receiver (this : loc) : M store RequestBuilder :=
  fun s =>
    match builders s !! this with
    | Some b => (Normal b, s)
    | None => (Throw TypeError, s)
    end.

Definition assign (this : loc) (b : RequestBuilder) : M store unit :=
  modify (fun s => {| builders := <[this := b]> (builders s);
                      dictionaries := dictionaries s |}).

Definition setMethod (this : loc) (m : string) : M store loc :=
  (b <- receiver this ;;
   assign this {| method := m; url := url b; headers := headers b;
                  body := body b |} ;;
   ret this)%js.

Definition setUrl (this : loc) (u : string) : M store loc :=
  (b <- receiver this ;;
   assign this {| method := method b; url := u; headers := headers b;
                  body := body b |} ;;
   ret this)%js.

(** [this.headers[key] = value] with a string [value]: an own property
    is written, except for the key ["__proto__"], whose setter ignores
    a value that is not an object. *)
Definition setHeader (this : loc) (key value : string) : M store loc :=
  (b <- receiver this ;;
   s <- get ;;
   match dictionaries s !! headers b with
   | Some props =>
       modify (fun s =>
         {| builders := builders s;
            dictionaries :=
              <[headers b :=
                  if String.eqb key "__proto__" then props
                  else <[key := value]> props]> (dictionaries s) |}) ;;
       ret this
   | None => throw TypeError
   end)%js.

Definition setBody (this : loc) (x : option body_t) : M store loc :=
  (b <- receiver this ;;
   assign this {| method := method b; url := url b; headers := headers b;
                  body := x |} ;;
   ret this)%js.

Definition build (this : loc) : M store request :=
  (b <- receiver this ;;
   ret {| r_method := method b; r_url := url b; r_headers := headers b;
          r_body := body b |})%js.

(** [r.headers[key]] when it is an own property of the dictionary;
    [None] when the dictionary has no such property. *)
Definition own_header (r : request) (key : string) (s : store)
    : option string :=
  dictionaries s !! r_headers r ≫= fun props => props !! key.

(** A builder with its dictionary in place. *)
Definition builder_at (this : loc) (b : RequestBuilder) (s : store) : Prop :=
  builders s !! this = Some b /\ is_Some (dictionaries s !! headers b).

End Body.

Arguments method {body_t} r.
Arguments url {body_t} r.
Arguments headers {body_t} r.
Arguments body {body_t} r.
Arguments r_method {body_t} r.
Arguments r_url {body_t} r.
Arguments r_headers {body_t} r.
Arguments r_body {body_t} r.
Arguments builders {body_t} s.
Arguments dictionaries {body_t} s.
Arguments start {body_t}.
Arguments new_RequestBuilder {body_t}.
Arguments setMethod {body_t} this m.
Arguments setUrl {body_t} this u.
Arguments setHeader {body_t} this key value.
Arguments setBody {body_t} this x.
Arguments build {body_t} this.
Arguments own_header {body_t} r key s.
Arguments builder_at {body_t} this b s.

End Builder.

(** ** Strategy: [ShoppingCart] *)

Module Cart.
Import JS.

(** [class ShoppingCart]: the strategy is [null] ([None]) until one is
    set. *)
Record ShoppingCart : Type :=
  { _paymentStrategy : option Strategy.receiver; _amount : number }.

Definition new_ShoppingCart : ShoppingCart :=
  {| _paymentStrategy := None; _amount := of_Z 0 |}.

Definition setPaymentStrategy (this : ShoppingCart)
    (strategy : Strategy.receiver) : ShoppingCart :=
  {| _paymentStrategy := Some strategy; _amount := _amount this |}.

Definition addItem (this : ShoppingCart) (price : number) : ShoppingCart :=
  {| _paymentStrategy := _paymentStrategy this;
     _amount := add (_amount this) price |}.

Definition checkout (this : ShoppingCart) : M console unit :=
  match _paymentStrategy this with
  | None => throw (Error "Стратегия оплаты не выбрана")
  | Some strategy => Strategy.pay strategy (_amount this)
  end.

(** Client code on one cart: items added and strategies chosen, in any
    order. *)
Inductive step : Type :=
| AddItem (price : number)
| SetPaymentStrategy (strategy : Strategy.receiver).

Definition perform (this : ShoppingCart) (s : step) : ShoppingCart :=
  match s with
  | AddItem price => addItem this price
  | SetPaymentStrategy strategy => setPaymentStrategy this strategy
  end.

(** The prices added and the strategies chosen, each in order. *)
Definition prices (steps : list step) : list number :=
  omap (fun s => match s with AddItem price => Some price | _ => None end)
    steps.

Definition strategies (steps : list step) : list Strategy.receiver :=
  omap (fun s => match s with
                 | SetPaymentStrategy strategy => Some strategy
                 | _ => None
                 end) steps.

End Cart.

(** ** Singleton: [CacheService] *)

Module CacheService.
Import JS.

Section Values.

(** Whatever is stored in the cache. *)
Variable value : Type.

(** A [CacheService] with its [cache] field ([None] until the
    constructor assigns it), or the [Map] stored there. *)
Inductive object : Type :=
| Service (cache : option loc)
| MapObject (entries : gmap string value).

(** The static field [CacheService.instance] and the objects created
    so far. *)
Record world : Type := { instance : option loc; heap : gmap loc object }.

Definition start : world := {| instance := None; heap := ∅ |}.

Definition alloc (o : object) : M world loc :=
  fun w =>
    let l := fresh (dom (heap w)) in
    (Normal l, {| instance := instance w; heap := <[l := o]> (heap w) |}).

Definition store (l : loc) (o : object) : M world unit :=
  modify (fun w => {| instance := instance w; heap := <[l := o]> (heap w) |}).

Definition deref (l : loc) : M world object :=
  fun w =>
    match heap w !! l with
    | Some o => (Normal o, w)
    | None => (Throw TypeError, w)
    end.

(** [new CacheService()]: the private constructor creates the map. *)
Definition new_CacheService : M world loc :=
  (this <- alloc (Service None) ;;
   map <- alloc (MapObject ∅) ;;
   store this (Service (Some map)) ;;
   ret this)%js.

Definition getInstance : M world (option loc) :=
  (w <- get ;;
   match instance w with
   | None =>
       service <- new_CacheService ;;
       modify (fun w => {| instance := Some service; heap := heap w |})
   | Some _ => ret tt
   end ;;
   w' <- get ;;
   ret (instance w'))%js.

(** [this.cache], which must be a map for [set] and [get] to be
    callable on it. *)
Definition cache_of (this : loc) : M world (loc * gmap string value) :=
  (o <- deref this ;;
   match o with
   | Service (Some map) =>
       m <- deref map ;;
       match m with
       | MapObject entries => ret (map, entries)
       | Service _ => throw TypeError
       end
   | _ => throw TypeError
   end)%js.

Definition set (this : loc) (key : string) (v : value) : M world unit :=
  (c <- cache_of this ;;
   store c.1 (MapObject (<[key := v]> c.2)))%js.

(** [Map.get] returns [undefined] ([None]) for a missing key. *)
Definition get_key (this : loc) (key : string) : M world (option value) :=
  (c <- cache_of this ;; ret (c.2 !! key))%js.

(** Using what [getInstance()] returned as a receiver. *)
Definition on (handle : option loc) : M world loc :=
  match handle with
  | Some l => ret l
  | None => throw TypeError
  end.

(** The instance, when set, is a service whose map exists. *)
Definition well_formed (w : world) : Prop :=
  match instance w with
  | None => True
  | Some l =>
      exists map entries,
        heap w !! l = Some (Service (Some map))
        /\ heap w !! map = Some (MapObject entries)
  end.

End Values.

Arguments instance {value} w.
Arguments heap {value} w.
Arguments start {value}.
Arguments getInstance {value}.
Arguments set {value} this key v.
Arguments get_key {value} this key.
Arguments on {value} handle.
Arguments well_formed {value} w.
Arguments cache_of {value} this.
Arguments Service {value} cache.
Arguments MapObject {value} entries.

End CacheService.

(** ** Adapter: [RectangleAdapter] *)

Module Geometry.
Import JS.

Definition is_nan (a : number) : bool :=
  match a with
  | S754_nan => true
  | _ => false
  end.

(** [a < b] on numbers; false when either is [NaN]. *)
Definition lt (a b : number) : bool := SFltb a b.

(** [Math.min(a, b)]: [NaN] when either argument is [NaN]; starting
    from [a], the second argument replaces the lowest value so far when
    it is [-0] against [+0] or when it is smaller. *)
Definition Math_min (a b : number) : number :=
  if is_nan a || is_nan b then NaN
  else
    match a, b with
    | S754_zero false, S754_zero true => S754_zero true
    | _, _ => if lt b a then b else a
    end.

(** [Math.abs(a)]. *)
Definition Math_abs (a : number) : number := SFabs a.

Section ToString.

(** [`${x}`] on a number is the engine's conversion. *)
Variable number_to_string : number -> string.

(** [class Rectangle]: no fields. *)
Inductive Rectangle : Type := new_Rectangle.

Definition display (this : Rectangle) (x y w h : number) : M console unit :=
  console_log ("Rectangle at (" +:+ number_to_string x +:+ ","
               +:+ number_to_string y +:+ ") with width "
               +:+ number_to_string w +:+ " and height "
               +:+ number_to_string h).

(** [class RectangleAdapter]. *)
Record RectangleAdapter : Type := { rectangle : Rectangle }.

Definition new_RectangleAdapter (r : Rectangle) : RectangleAdapter :=
  {| rectangle := r |}.

Definition draw (this : RectangleAdapter) (x1 y1 x2 y2 : number)
    : M console unit :=
  let x := Math_min x1 x2 in
  let y := Math_min y1 y2 in
  let width := Math_abs (sub x2 x1) in
  let height := Math_abs (sub y2 y1) in
  display (rectangle this) x y width height.

End ToString.

End Geometry.

(** ** Decorator: [Coffee] and its decorators *)

Module CoffeeShop.
Import JS.

(** The decorator classes: [CoffeeDecorator] and its three
    subclasses. *)
Inductive decorator : Type :=
| CoffeeDecorator
| MilkDecorator
| SugarDecorator
| WhipDecorator.

(** A [Coffee], which has no fields, or a decorator with the
    component it wraps in its [coffee] field. *)
Inductive object : Type :=
| Coffee
| Wrapper (class : decorator) (coffee : loc).

Definition alloc (o : object) : M (gmap loc object) loc :=
  fun h => let l := fresh (dom h) in (Normal l, <[l := o]> h).

Definition new_Coffee : M (gmap loc object) loc := alloc Coffee.

Definition new_decorator (class : decorator) (coffee : loc)
    : M (gmap loc object) loc :=
  alloc (Wrapper class coffee).

Definition deref (l : loc) : M (gmap loc object) object :=
  fun h =>
    match h !! l with
    | Some o => (Normal o, h)
    | None => (Throw TypeError, h)
    end.

(** [this.cost()]; [stack] bounds the nesting of activations as for
    the text decorators. *)
Fixpoint cost (stack : nat) (this : loc) : M (gmap loc object) number :=
  match stack with
  | 0 => throw RangeError
  | S stack' =>
      (o <- deref this ;;
       match o with
       | Coffee => ret (of_Z 5)
       | Wrapper class coffee =>
           let super_cost := cost stack' coffee in
           match class with
           | CoffeeDecorator => super_cost
           | MilkDecorator => c <- super_cost ;; ret (add c (of_Z 2))
           | SugarDecorator => c <- super_cost ;; ret (add c (of_Z 1))
           | WhipDecorator => c <- super_cost ;; ret (add c (of_Z 3))
           end
       end)%js
  end.

(** [this.description()]. *)
Fixpoint description (stack : nat) (this : loc)
    : M (gmap loc object) string :=
  match stack with
  | 0 => throw RangeError
  | S stack' =>
      (o <- deref this ;;
       match o with
       | Coffee => ret "Simple coffee"
       | Wrapper class coffee =>
           let super_description := description stack' coffee in
           match class with
           | CoffeeDecorator => super_description
           | MilkDecorator => d <- super_description ;; ret (d +:+ ", milk")
           | SugarDecorator => d <- super_description ;; ret (d +:+ ", sugar")
           | WhipDecorator => d <- super_description ;; ret (d +:+ ", whip")
           end
       end)%js
  end.

(** What each class adds to the price and to the description. *)
Definition price (class : decorator) : option Z :=
  match class with
  | CoffeeDecorator => None
  | MilkDecorator => Some 2%Z
  | SugarDecorator => Some 1%Z
  | WhipDecorator => Some 3%Z
  end.

Definition priced (class : decorator) (c : number) : number :=
  match price class with
  | Some p => add c (of_Z p)
  | None => c
  end.

Definition described (class : decorator) (d : string) : string :=
  match class with
  | CoffeeDecorator => d
  | MilkDecorator => d +:+ ", milk"
  | SugarDecorator => d +:+ ", sugar"
  | WhipDecorator => d +:+ ", whip"
  end.

(** Client code wrapping [component] in decorators of the given
    classes, innermost first. *)
Fixpoint wrap (classes : list decorator) (component : loc)
    : M (gmap loc object) loc :=
  match classes with
  | [] => ret component
  | class :: rest =>
      (decorated <- new_decorator class component ;; wrap rest decorated)%js
  end.

(** [`${coffee.description()}` and `coffee.cost()`] of a decorated
    coffee, as the snippet prints them. *)
Definition order (stack : nat) (classes : list decorator)
    : M (gmap loc object) (string * number) :=
  (coffee <- new_Coffee ;;
   top <- wrap classes coffee ;;
   d <- description stack top ;;
   c <- cost stack top ;;
   ret (d, c))%js.

End CoffeeShop.

(** ** Builder: [House], [WoodenHouseBuilder], [ConstructionDirector] *)

Module HouseBuilder.
Import JS.

(** [class House], with its field initialisers. *)
Record House : Type :=
  { walls : string; roof : string; windows : number; garage : bool }.

Definition new_House : House :=
  {| walls := ""; roof := ""; windows := of_Z 0; garage := false |}.

Section ToString.

(** [`${this.windows}`] is the engine's conversion of a number. *)
Variable number_to_string : number -> string.

Definition describe (this : House) : string :=
  "Дом с " +:+ walls this +:+ " стенами, " +:+ roof this +:+ " крышей, "
  +:+ number_to_string (windows this) +:+ " окнами"
  +:+ (if garage this then " и гаражом" else "").

End ToString.

(** [class WoodenHouseBuilder]: the builder keeps a reference to the
    one house its constructor created; the houses live in the heap. *)
Record WoodenHouseBuilder : Type := { house : loc }.

Definition new_WoodenHouseBuilder : M (gmap loc House) WoodenHouseBuilder :=
  fun h =>
    let l := fresh (dom h) in
    (Normal {| house := l |}, <[l := new_House]> h).

(** An assignment to a field of [this.house]. *)
Definition assign (this : WoodenHouseBuilder) (f : House -> House)
    : M (gmap loc House) unit :=
  fun h =>
    match h !! house this with
    | Some x => (Normal tt, <[house this := f x]> h)
    | None => (Throw TypeError, h)
    end.

Definition buildWalls (this : WoodenHouseBuilder) : M (gmap loc House) unit :=
  assign this (fun x => {| walls := "деревянными"; roof := roof x;
                           windows := windows x; garage := garage x |}).

Definition buildRoof (this : WoodenHouseBuilder) : M (gmap loc House) unit :=
  assign this (fun x => {| walls := walls x; roof := "деревянной";
                           windows := windows x; garage := garage x |}).

Definition buildWindows (this : WoodenHouseBuilder)
    : M (gmap loc House) unit :=
  assign this (fun x => {| walls := walls x; roof := roof x;
                           windows := of_Z 4; garage := garage x |}).

Definition buildGarage (this : WoodenHouseBuilder) : M (gmap loc House) unit :=
  assign this (fun x => {| walls := walls x; roof := roof x;
                           windows := windows x; garage := true |}).

Definition getResult (this : WoodenHouseBuilder) : loc := house this.

(** [ConstructionDirector.construct(builder)]. *)
Definition construct (builder : WoodenHouseBuilder) : M (gmap loc House) loc :=
  (buildWalls builder ;;
   buildRoof builder ;;
   buildWindows builder ;;
   buildGarage builder ;;
   ret (getResult builder))%js.

(** Client code driving the builder itself: the four steps, in any
    order and number. *)
Inductive step : Type := Walls | Roof | Windows | Garage.

#[export] Instance step_eq_dec : EqDecision step.
Proof. solve_decision. Defined.

Definition perform (builder : WoodenHouseBuilder) (s : step)
    : M (gmap loc House) unit :=
  match s with
  | Walls => buildWalls builder
  | Roof => buildRoof builder
  | Windows => buildWindows builder
  | Garage => buildGarage builder
  end.

Definition wooden_house : House :=
  {| walls := "деревянными"; roof := "деревянной"; windows := of_Z 4;
     garage := true |}.

End HouseBuilder.

(** ** Template method: [FileProcessor] *)

Module FileProcessing.
Import JS.

Section Results.

(** What [processData] returns. *)
Variable result : Type.

Definition openFile (filename : string) : M console unit :=
  console_log ("Открываем файл: " +:+ filename).

Definition closeFile : M console unit := console_log "Закрываем файл".

(** [class FileProcessor]: the two steps that must be overridden. *)
Definition FileProcessor_readData : M console string :=
  throw (Error "Метод readData() должен быть реализован").

Definition FileProcessor_processData (data : string) : M console result :=
  throw (Error "Метод processData() должен быть реализован").

(** The body of a class that extends [FileProcessor], directly or
    not: which of the two steps it declares.  [openFile] and
    [closeFile] are left as [FileProcessor] has them. *)
Record class_body : Type :=
  { readData_decl : option (M console string);
    processData_decl : option (string -> M console result) }.

(** A receiver is known by its prototype chain below [FileProcessor],
    most derived first. *)
Definition receiver : Type := list class_body.

Fixpoint readData (this : receiver) : M console string :=
  match this with
  | [] => FileProcessor_readData
  | body :: ancestors =>
      match readData_decl body with
      | Some code => code
      | None => readData ancestors
      end
  end.

Fixpoint processData (this : receiver) (data : string) : M console result :=
  match this with
  | [] => FileProcessor_processData data
  | body :: ancestors =>
      match processData_decl body with
      | Some code => code data
      | None => processData ancestors data
      end
  end.

Definition overrides_readData (this : receiver) : bool :=
  existsb (fun body => bool_decide (is_Some (readData_decl body))) this.

Definition overrides_processData (this : receiver) : bool :=
  existsb (fun body => bool_decide (is_Some (processData_decl body))) this.

(** The template method. *)
Definition processFile (this : receiver) (filename : string)
    : M console result :=
  (openFile filename ;;
   data <- readData this ;;
   r <- processData this data ;;
   closeFile ;;
   ret r)%js.

End Results.

Arguments readData_decl {result} c.
Arguments processData_decl {result} c.
Arguments readData {result} this.
Arguments processData {result} this data.
Arguments overrides_readData {result} this.
Arguments overrides_processData {result} this.
Arguments processFile {result} this filename.

(** [data.split(",")]: the pieces between the commas, empty pieces
    included. *)
Fixpoint split_commas (data : string) : list string :=
  match data with
  | EmptyString => [EmptyString]
  | String c rest =>
      if Ascii.eqb c ","%char then EmptyString :: split_commas rest
      else
        match split_commas rest with
        | piece :: pieces => String c piece :: pieces
        | [] => [String c EmptyString]
        end
  end.

Section Csv.

(** How [console.log] shows an array is the engine's business. *)
Variable inspect : list string -> string.

(** [class CsvProcessor]; its result has a [type] and the [rows]. *)
Definition CsvProcessor : class_body (string * list string) :=
  {| readData_decl :=
       Some (console_log "Читаем CSV-данные" ;; ret "csv,data,example")%js;
     processData_decl :=
       Some (fun data =>
         (console_log ("Обрабатываем CSV: " +:+ inspect (split_commas data)) ;;
          ret ("csv", split_commas data))%js) |}.

End Csv.

End FileProcessing.

(** * Properties *)

(** ** Adapter *)

(** The literal [15] is the binary64 value [15 * 2^49 * 2^-49]. *)
Lemma of_Z_15 : JS.of_Z 15 = S754_finite false 8444249301319680 (-49).
Proof. reflexivity. Qed.

(** C1. The adapter's printed example: on a freshly constructed
    [CalcAdapter], [operations(25, 10, 'sub')] is what [NewCalc.sub]
    computes, [25 - 10], that is [15]. *)
Theorem adapter_doctest_sub :
  Adapter.CalcAdapter_operations Adapter.new_CalcAdapter
    (JS.of_Z 25) (JS.of_Z 10) "sub"
    = Adapter.NewCalc_sub (Adapter.calc Adapter.new_CalcAdapter)
        (JS.of_Z 25) (JS.of_Z 10)
  /\ Adapter.NewCalc_sub (Adapter.calc Adapter.new_CalcAdapter)
        (JS.of_Z 25) (JS.of_Z 10)
    = JS.sub (JS.of_Z 25) (JS.of_Z 10)
  /\ Adapter.CalcAdapter_operations Adapter.new_CalcAdapter
        (JS.of_Z 25) (JS.of_Z 10) "sub"
    = JS.of_Z 15.
Proof. split; [reflexivity|]. split; [reflexivity|]. vm_compute. reflexivity. Qed.

(** C8. The legacy calculator and the adapter agree on every pair of
    numbers and every operation string, and the common value is
    [t1 + t2] for ['add'], [t1 - t2] for ['sub'] and [NaN] otherwise. *)
Theorem adapter_refines_old_calc (t1 t2 : JS.number) (op : string) :
  Adapter.OldCalc_operations Adapter.new_OldCalc t1 t2 op
    = Adapter.CalcAdapter_operations Adapter.new_CalcAdapter t1 t2 op
  /\ Adapter.CalcAdapter_operations Adapter.new_CalcAdapter t1 t2 op
    = (if decide (op = "add") then JS.add t1 t2
       else if decide (op = "sub") then JS.sub t1 t2
       else JS.NaN).
Proof.
  unfold Adapter.OldCalc_operations, Adapter.CalcAdapter_operations,
    Adapter.NewCalc_add, Adapter.NewCalc_sub.
  split; [reflexivity|].
  destruct (String.eqb_spec op "add") as [->|Hadd].
  - reflexivity.
  - rewrite decide_False by exact Hadd.
    destruct (String.eqb_spec op "sub") as [->|Hsub].
    + reflexivity.
    + rewrite decide_False by exact Hsub. reflexivity.
Qed.

(** ** Facade *)

Section FacadeFacts.
Import JS.
Context {world record_id : Type}.
Variable truthy : record_id -> bool.
Variable SimpleRecord_insert : string -> M world record_id.

(** None of the three helper classes has a static member, so a
    property read on the class itself finds nothing. *)
Lemma static_get_helpers (name : string) :
  Facade.static_get (Facade.TaskApproval SimpleRecord_insert) name = None
  /\ Facade.static_get (Facade.TaskIndication SimpleRecord_insert) name
    = None
  /\ Facade.static_get
       (Facade.TaskNotification truthy SimpleRecord_insert) name = None.
Proof.
  unfold Facade.static_get, Facade.find_member; cbn.
  rewrite !andb_false_r. done.
Qed.

(** C2. [startBusinessProcess] as written never reaches a helper: the
    first call, [TaskApproval.createApproval()], is made on the class,
    where no such member exists, and throws a [TypeError]; nothing is
    inserted and no list is returned. *)
Theorem facade_startBusinessProcess_throws (w : world) :
  Facade.startBusinessProcess truthy SimpleRecord_insert
    (Facade.new_TaskFacade truthy SimpleRecord_insert) w
    = (Throw TypeError, w).
Proof. reflexivity. Qed.

(** Forwarding to the stored helpers, as documented, performs the
    three inserts in order and returns the three results in order. *)
Lemma facade_on_helpers_forwards (w w1 w2 w3 : world) (a i n : record_id) :
  SimpleRecord_insert "approval" w = (Normal a, w1) ->
  SimpleRecord_insert "indication" w1 = (Normal i, w2) ->
  SimpleRecord_insert "notification" w2 = (Normal n, w3) ->
  Facade.startBusinessProcess_on_helpers
    (Facade.new_TaskFacade truthy SimpleRecord_insert) w
    = (Normal [Facade.VRecord a; Facade.VRecord i;
               Facade.VBool (truthy n)], w3).
Proof.
  intros Ha Hi Hn.
  unfold Facade.startBusinessProcess_on_helpers, bind; cbn.
  unfold bind, ret. rewrite Ha, Hi, Hn. reflexivity.
Qed.

End FacadeFacts.

(** The audio facade forwards to its stored helpers and prints the three
    lines shown in the write-up. *)
Lemma audio_facade_playSong :
  Facade.playSong Facade.new_AudioPlayerFacade "song.mp3" []
    = (JS.Normal tt,
       ["Декодируем аудиофайл: song.mp3";
        "Обрабатываем аудиопоток...";
        "Воспроизводим аудио: processed_audio"]).
Proof. reflexivity. Qed.

(** ** Template method and strategy *)

Section AbstractMethodFacts.
Import JS TemplateMethod.

Lemma invoke_not_overridden (this : receiver) (m : step) :
  overrides this m = false -> invoke this m = Beverage_step m.
Proof.
  induction this as [|body ancestors IH]; cbn; [reflexivity|].
  intros [Hbody Hrest]%orb_false_elim.
  destruct (body m) as [code|]; [discriminate Hbody | exact (IH Hrest)].
Qed.

Lemma pay_not_overridden (this : Strategy.receiver) (amount : number) :
  Strategy.overrides_pay this = false ->
  Strategy.pay this amount = Strategy.PaymentStrategy_pay amount.
Proof.
  induction this as [|[code|] ancestors IH]; cbn;
    [reflexivity | discriminate | exact IH].
Qed.

(** C4. On a receiver whose classes do not override them, [brew] and
    [addCondiments] throw an [Error], and [pay] throws an [Error] for
    every amount; so [prepare] on a plain [Beverage] prints the
    boiling line and then throws at the brew step. *)
Theorem abstract_methods_throw :
  (forall (this : receiver) (c : console),
      overrides this brew = false ->
      invoke this brew c
        = (Throw (Error "Метод brew() должен быть реализован"), c))
  /\ (forall (this : receiver) (c : console),
      overrides this addCondiments = false ->
      invoke this addCondiments c
        = (Throw (Error "Метод addCondiments() должен быть реализован"), c))
  /\ (forall (this : Strategy.receiver) (amount : number) (c : console),
      Strategy.overrides_pay this = false ->
      Strategy.pay this amount c
        = (Throw (Error "Метод pay() должен быть реализован"), c))
  /\ (forall c : console,
      prepare new_Beverage c
        = (Throw (Error "Метод brew() должен быть реализован"),
           c ++ ["Кипятим воду"])).
Proof.
  split; [|split; [|split]].
  - intros this c Hno. by rewrite invoke_not_overridden.
  - intros this c Hno. by rewrite invoke_not_overridden.
  - intros this amount c Hno. by rewrite pay_not_overridden.
  - intros c. reflexivity.
Qed.

(** A subclass with an empty body ([class Water extends Beverage {}])
    still has the two abstract steps, and an empty strategy subclass
    still has the abstract [pay]. *)
Lemma abstract_methods_throw_witness :
  invoke [fun _ : step => None] brew []
    = (Throw (Error "Метод brew() должен быть реализован"), [])
  /\ invoke [fun _ : step => None] addCondiments []
    = (Throw (Error "Метод addCondiments() должен быть реализован"), [])
  /\ Strategy.pay [None] (of_Z 1500) []
    = (Throw (Error "Метод pay() должен быть реализован"), []).
Proof.
  split; [|split].
  - apply (proj1 abstract_methods_throw [fun _ : step => None] []). reflexivity.
  - apply (proj1 (proj2 abstract_methods_throw) [fun _ : step => None] []). reflexivity.
  - apply (proj1 (proj2 (proj2 abstract_methods_throw)) [None] (of_Z 1500) []).
    reflexivity.
Defined.

End AbstractMethodFacts.

(** The subclasses of the write-up complete the recipe. *)
Lemma tea_prepare :
  TemplateMethod.prepare TemplateMethod.new_Tea []
    = (JS.Normal tt,
       ["Кипятим воду"; "Завариваем чайные листья"; "Добавляем лимон";
        "Перемешиваем напиток"]).
Proof. reflexivity. Qed.

(** ** Observer *)

Section ObserverFacts.
Import JS ObserverPattern.

(** The run at the end of the snippet: two [PLUS], one [MINUS] and a
    [MULTI_PLUS] of [10] take the default observer from [1] to [12]. *)
Lemma observer_snippet_run :
  let actions :=
    [ {| type := "PLUS"; value := None |};
      {| type := "PLUS"; value := None |};
      {| type := "MINUS"; value := None |};
      {| type := "MULTI_PLUS"; value := Some (of_Z 10) |} ] in
  state (foldl Observer_update (new_Observer None) actions) = of_Z 12.
Proof. vm_compute. reflexivity. Qed.

Lemma Observer_update_initialState (this : Observer) (a : action) :
  initialState (Observer_update this a) = initialState this.
Proof.
  unfold Observer_update.
  repeat (match goal with |- context [String.eqb ?x ?y] =>
            destruct (String.eqb x y) end); reflexivity.
Qed.

Lemma updates_keep_initialState (this : Observer) (prior : list action) :
  initialState (foldl Observer_update this prior) = initialState this.
Proof.
  revert this. induction prior as [|a prior IH]; intros this; [reflexivity|].
  cbn. rewrite IH. apply Observer_update_initialState.
Qed.

(** C10. Whatever updates an observer built with initial state [s] has
    already received, an action of an unrecognised type puts its state
    back to [s]; ['PLUS'] adds [1], ['MINUS'] subtracts [1] and
    ['MULTI_PLUS'] adds the action's [value]. *)
Theorem observer_update_cases (s : number) (prior : list action) (a : action) :
  let this := foldl Observer_update (new_Observer (Some s)) prior in
  (type a <> "PLUS" -> type a <> "MINUS" -> type a <> "MULTI_PLUS" ->
     state (Observer_update this a) = s)
  /\ (type a = "PLUS" ->
     state (Observer_update this a) = add (state this) (of_Z 1))
  /\ (type a = "MINUS" ->
     state (Observer_update this a) = sub (state this) (of_Z 1))
  /\ (forall v, type a = "MULTI_PLUS" -> value a = Some v ->
     state (Observer_update this a) = add (state this) v).
Proof.
  intros this.
  assert (Hinit : initialState this = s)
    by (unfold this; rewrite updates_keep_initialState; reflexivity).
  unfold Observer_update. split; [|split; [|split]].
  - intros H1 H2 H3.
    rewrite (proj2 (String.eqb_neq _ _) H1), (proj2 (String.eqb_neq _ _) H2),
      (proj2 (String.eqb_neq _ _) H3).
    exact Hinit.
  - intros ->. reflexivity.
  - intros ->. reflexivity.
  - intros v -> ->. reflexivity.
Qed.

Lemma observer_update_cases_witness :
  let prior :=
    [ {| type := "PLUS"; value := None |};
      {| type := "MULTI_PLUS"; value := Some (of_Z 10) |} ] in
  let this := foldl Observer_update (new_Observer (Some (of_Z 10))) prior in
  state (Observer_update this {| type := "RESET"; value := None |}) = of_Z 10
  /\ state (Observer_update this {| type := "PLUS"; value := None |})
     = add (state this) (of_Z 1)
  /\ state (Observer_update this {| type := "MINUS"; value := None |})
     = sub (state this) (of_Z 1)
  /\ state (Observer_update this
              {| type := "MULTI_PLUS"; value := Some (of_Z 5) |})
     = add (state this) (of_Z 5).
Proof.
  intros prior this. split; [|split; [|split]].
  - apply (proj1 (observer_update_cases (of_Z 10) prior
                    {| type := "RESET"; value := None |}));
      cbn; discriminate.
  - apply (proj1 (proj2 (observer_update_cases (of_Z 10) prior
                    {| type := "PLUS"; value := None |}))).
    reflexivity.
  - apply (proj1 (proj2 (proj2 (observer_update_cases (of_Z 10) prior
                    {| type := "MINUS"; value := None |})))).
    reflexivity.
  - apply (proj2 (proj2 (proj2 (observer_update_cases (of_Z 10) prior
                    {| type := "MULTI_PLUS"; value := Some (of_Z 5) |})))
             (of_Z 5)); reflexivity.
Defined.

(** *** Lists of subscriptions *)

Lemma occurrences_app (o : loc) (l1 l2 : list loc) :
  occurrences o (l1 ++ l2) = occurrences o l1 + occurrences o l2.
Proof. unfold occurrences. by rewrite filter_app, length_app. Qed.

Lemma occurrences_elem_of (o : loc) (l : list loc) :
  o ∈ l <-> 0 < occurrences o l.
Proof.
  unfold occurrences. induction l as [|x l IH].
  - cbn. split; [by intros ?%not_elem_of_nil | lia].
  - rewrite filter_cons, elem_of_cons. destruct (decide (x = o)) as [->|Hne].
    + cbn. split; [lia | by left].
    + rewrite <- IH. split; [intros [->|]; done | by right].
Qed.

Lemma filter_ne_not_elem_of (o : loc) (l : list loc) :
  o ∉ filter (fun obs => obs <> o) l.
Proof. rewrite list_elem_of_filter. by intros [Hne _]. Qed.

Lemma filter_ne_occurrences (o o' : loc) (l : list loc) :
  o' <> o ->
  occurrences o' (filter (fun obs => obs <> o) l) = occurrences o' l.
Proof.
  intros Hne. unfold occurrences. rewrite list_filter_filter.
  f_equal. apply list_filter_iff. intros x. split; [by intros [-> _]|].
  intros ->. done.
Qed.

Lemma filter_ne_absent (o : loc) (l : list loc) :
  o ∉ l -> filter (fun obs => obs <> o) l = l.
Proof.
  induction l as [|x l IH]; [done|].
  rewrite not_elem_of_cons. intros [Hne Hnot].
  rewrite filter_cons, decide_True by done. by rewrite IH.
Qed.

(** *** Firing *)

Lemma update_alive (o : loc) (a : action) (w : world) (this : Observer) :
  heap w !! o = Some this ->
  update o a w
    = (Normal tt,
       {| heap := <[o := Observer_update this a]> (heap w);
          calls := calls w ++ [(o, a)] |}).
Proof. intros H. unfold update. by rewrite H. Qed.

Lemma forEach_update (l : list loc) (a : action) (w : world) :
  Forall (fun o => is_Some (heap w !! o)) l ->
  exists w',
    forEach l (fun o => update o a) w = (Normal tt, w')
    /\ calls w' = calls w ++ map (fun o => (o, a)) l
    /\ dom (heap w') = dom (heap w).
Proof.
  revert w. induction l as [|o l IH]; intros w Hall.
  - exists w. cbn. by rewrite app_nil_r.
  - apply Forall_cons in Hall as [[this Hthis] Hall].
    set (w1 := {| heap := <[o := Observer_update this a]> (heap w);
                  calls := calls w ++ [(o, a)] |}).
    assert (Hdom : dom (heap w1) = dom (heap w)).
    { cbn. rewrite dom_insert_L.
      apply subseteq_union_1_L, singleton_subseteq_l, elem_of_dom. eauto. }
    destruct (IH w1) as (w' & Hrun & Hcalls & Hdom').
    { eapply Forall_impl; [exact Hall|]. intros x Hx.
      apply elem_of_dom. rewrite Hdom. by apply elem_of_dom. }
    exists w'. split; [|split].
    + cbn. unfold bind. rewrite (update_alive o a w this Hthis). exact Hrun.
    + rewrite Hcalls. cbn. by rewrite <- app_assoc.
    + by rewrite Hdom'.
Qed.

Lemma calls_to_app (o : loc) (h1 h2 : list (loc * action)) :
  calls_to o (h1 ++ h2) = calls_to o h1 + calls_to o h2.
Proof. unfold calls_to. by rewrite fmap_app, occurrences_app. Qed.

Lemma calls_to_map (o : loc) (a : action) (l : list loc) :
  calls_to o (map (fun o' => (o', a)) l) = occurrences o l.
Proof.
  unfold calls_to. f_equal. induction l as [|x l IH]; [done|].
  cbn. by rewrite IH.
Qed.

(** *** Subscription order *)

Lemma filter_all {A} (P : A -> Prop) `{!forall x, Decision (P x)}
    (l : list A) :
  (forall x, P x) -> filter P l = l.
Proof.
  intros HP. induction l as [|x l IH]; [done|].
  by rewrite filter_cons, decide_True, IH.
Qed.

Lemma subject_after_history (history : list Subscriptions.request)
    (stream : Subject) :
  observers (foldl Subscriptions.on_subject stream history)
  = filter (fun o => Subscriptions.Unsubscribe o ∉ history) (observers stream)
    ++ Subscriptions.in_force history.
Proof.
  revert stream. induction history as [|[o|o] later IH]; intros stream.
  - cbn. rewrite app_nil_r. symmetry. apply filter_all.
    intros x. apply not_elem_of_nil.
  - cbn [foldl Subscriptions.on_subject Subscriptions.in_force].
    rewrite IH. unfold subscribe. cbn [observers].
    rewrite filter_app, filter_cons, filter_nil, <- app_assoc.
    f_equal.
    + apply list_filter_iff. intros x. rewrite elem_of_cons.
      split; [intros Hx [Heq|Hin]; [discriminate | by apply Hx] | tauto].
    + destruct (decide (Subscriptions.Unsubscribe o ∈ later)) as [Hin|Hnot].
      * by rewrite decide_False by tauto.
      * by rewrite decide_True.
  - cbn [foldl Subscriptions.on_subject Subscriptions.in_force].
    rewrite IH. unfold unsubscribe. cbn [observers].
    rewrite list_filter_filter. f_equal.
    apply list_filter_iff. intros x. rewrite elem_of_cons. split.
    + intros [Hx Hne] [[= ->]|Hin]; [by apply Hne | by apply Hx].
    + intros Hx. split; [tauto|]. intros ->. apply Hx. by left.
Qed.

Lemma publisher_after_history (history : list Subscriptions.request)
    (publisher : News.NewsPublisher) :
  News.subscribers (foldl Subscriptions.on_publisher publisher history)
  = filter (fun o => Subscriptions.Unsubscribe o ∉ history)
      (News.subscribers publisher)
    ++ Subscriptions.in_force history
  /\ News.news (foldl Subscriptions.on_publisher publisher history)
     = News.news publisher.
Proof.
  revert publisher. induction history as [|[o|o] later IH]; intros publisher.
  - cbn. rewrite app_nil_r. split; [|reflexivity]. symmetry.
    apply filter_all. intros x. apply not_elem_of_nil.
  - cbn [foldl Subscriptions.on_publisher Subscriptions.in_force].
    destruct (IH (News.subscribe publisher o)) as [-> ->].
    split; [|reflexivity]. unfold News.subscribe. cbn [News.subscribers].
    rewrite filter_app, filter_cons, filter_nil, <- app_assoc.
    f_equal.
    + apply list_filter_iff. intros x. rewrite elem_of_cons.
      split; [intros Hx [Heq|Hin]; [discriminate | by apply Hx] | tauto].
    + destruct (decide (Subscriptions.Unsubscribe o ∈ later)) as [Hin|Hnot].
      * by rewrite decide_False by tauto.
      * by rewrite decide_True.
  - cbn [foldl Subscriptions.on_publisher Subscriptions.in_force].
    destruct (IH (News.unsubscribe publisher o)) as [-> ->].
    split; [|reflexivity]. unfold News.unsubscribe. cbn [News.subscribers].
    rewrite list_filter_filter. f_equal.
    apply list_filter_iff. intros x. rewrite elem_of_cons. split.
    + intros [Hx Hne] [[= ->]|Hin]; [by apply Hne | by apply Hx].
    + intros Hx. split; [tauto|]. intros ->. apply Hx. by left.
Qed.

(** With subscriptions only, the subscriptions in force are the
    observers in the order they were subscribed. *)
Lemma in_force_subscriptions (l : list loc) :
  Subscriptions.in_force (Subscriptions.Subscribe <$> l) = l.
Proof.
  induction l as [|o l IH]; [done|].
  cbn [fmap list_fmap Subscriptions.in_force].
  rewrite decide_False; [by rewrite IH|].
  intros (o' & Heq & _)%list_elem_of_fmap. discriminate.
Qed.

Lemma subject_subscriptions (l : list loc) (stream : Subject) :
  foldl Subscriptions.on_subject stream (Subscriptions.Subscribe <$> l)
  = foldl subscribe stream l.
Proof. revert stream. induction l as [|o l IH]; intros stream; [done|]. apply IH. Qed.

Lemma publisher_subscriptions (l : list loc) (publisher : News.NewsPublisher) :
  foldl Subscriptions.on_publisher publisher (Subscriptions.Subscribe <$> l)
  = foldl News.subscribe publisher l.
Proof.
  revert publisher. induction l as [|o l IH]; intros publisher; [done|].
  apply IH.
Qed.

(** C3, as it holds.  A notification calls [update] once for every
    subscription, in the order in which the subscriptions were made.
    Whatever [subscribe] and [unsubscribe] calls a new subject or a
    new publisher has received, its list holds the subscriptions still
    in force in the order they were made, [fire] makes exactly the
    calls [(o, action)] for [o] along them and [notify] prints exactly
    their subscribers' lines; the same holds of any subject or
    publisher along its list.  In particular, after [subscribe] calls
    only, for the observers of a list [l] one after another, the calls
    go to the observers of [l] in that order.  An observer is therefore
    called as many times as it is subscribed, and exactly once when it
    is subscribed once. *)
Theorem notification_once_per_subscription :
  (forall (stream : Subject) (a : action) (w : world),
      subscribed_alive stream w ->
      exists w',
        fire stream a w = (Normal tt, w')
        /\ calls w' = calls w ++ map (fun o => (o, a)) (observers stream)
        /\ (forall o, calls_to o (calls w')
                      = calls_to o (calls w) + occurrences o (observers stream)))
  /\ (forall (publisher : News.NewsPublisher) (w : News.world),
      News.subscribed_alive publisher w ->
      exists w' lines,
        News.notify publisher w = (Normal tt, w')
        /\ News.heap w' = News.heap w
        /\ News.console w' = News.console w ++ lines
        /\ Forall2
             (fun sub line =>
                News.line_of w (News.news publisher) sub = Some line)
             (News.subscribers publisher) lines)
  /\ (forall (history : list Subscriptions.request) (a : action) (w : world),
      let stream := foldl Subscriptions.on_subject new_Subject history in
      subscribed_alive stream w ->
      observers stream = Subscriptions.in_force history
      /\ exists w',
           fire stream a w = (Normal tt, w')
           /\ calls w'
              = calls w
                ++ map (fun o => (o, a)) (Subscriptions.in_force history)
           /\ (forall o,
                 calls_to o (calls w')
                 = calls_to o (calls w)
                   + occurrences o (Subscriptions.in_force history)))
  /\ (forall (history : list Subscriptions.request) (w : News.world),
      let publisher :=
        foldl Subscriptions.on_publisher News.new_NewsPublisher history in
      News.subscribed_alive publisher w ->
      News.subscribers publisher = Subscriptions.in_force history
      /\ exists w' lines,
           News.notify publisher w = (Normal tt, w')
           /\ News.console w' = News.console w ++ lines
           /\ Forall2 (fun sub line => News.line_of w None sub = Some line)
                (Subscriptions.in_force history) lines)
  /\ (forall (l : list loc) (a : action) (w : world),
      let stream := foldl subscribe new_Subject l in
      subscribed_alive stream w ->
      observers stream = l
      /\ exists w',
           fire stream a w = (Normal tt, w')
           /\ calls w' = calls w ++ map (fun o => (o, a)) l
           /\ (forall o,
                 calls_to o (calls w') = calls_to o (calls w) + occurrences o l))
  /\ (forall (l : list loc) (w : News.world),
      let publisher := foldl News.subscribe News.new_NewsPublisher l in
      News.subscribed_alive publisher w ->
      News.subscribers publisher = l
      /\ exists w' lines,
           News.notify publisher w = (Normal tt, w')
           /\ News.console w' = News.console w ++ lines
           /\ Forall2 (fun sub line => News.line_of w None sub = Some line)
                l lines).
Proof.
  assert (Hfire : forall (stream : Subject) (a : action) (w : world),
      subscribed_alive stream w ->
      exists w',
        fire stream a w = (Normal tt, w')
        /\ calls w' = calls w ++ map (fun o => (o, a)) (observers stream)
        /\ (forall o, calls_to o (calls w')
                      = calls_to o (calls w)
                        + occurrences o (observers stream))).
  { intros stream a w Halive.
    destruct (forEach_update (observers stream) a w Halive)
      as (w' & Hrun & Hcalls & _).
    exists w'. split; [exact Hrun|]. split; [exact Hcalls|].
    intros o. by rewrite Hcalls, calls_to_app, calls_to_map. }
  assert (Hnotify : forall (publisher : News.NewsPublisher) (w : News.world),
      News.subscribed_alive publisher w ->
      exists w' lines,
        News.notify publisher w = (Normal tt, w')
        /\ News.heap w' = News.heap w
        /\ News.console w' = News.console w ++ lines
        /\ Forall2
             (fun sub line =>
                News.line_of w (News.news publisher) sub = Some line)
             (News.subscribers publisher) lines).
  { intros [subs news] w. unfold News.subscribed_alive, News.notify. cbn.
    revert w. induction subs as [|sub subs IH]; intros w Hall.
    + exists w, []. cbn. by rewrite app_nil_r.
    + apply Forall_cons in Hall as [[this Hthis] Hall].
      set (w1 := {| News.heap := News.heap w;
                    News.console :=
                      News.console w ++ [News.NewsSubscriber_line this news] |}).
      destruct (IH w1 Hall) as (w' & lines & Hrun & Hheap & Hcons & Hlines).
      exists w', (News.NewsSubscriber_line this news :: lines).
      split; [|split; [|split]].
      * cbn. unfold bind, News.update at 1. rewrite Hthis. exact Hrun.
      * by rewrite Hheap.
      * rewrite Hcons. cbn. by rewrite <- app_assoc.
      * constructor; [|exact Hlines].
        unfold News.line_of. by rewrite Hthis. }
  assert (Hsubject : forall (history : list Subscriptions.request)
                            (a : action) (w : world),
      let stream := foldl Subscriptions.on_subject new_Subject history in
      subscribed_alive stream w ->
      observers stream = Subscriptions.in_force history
      /\ exists w',
           fire stream a w = (Normal tt, w')
           /\ calls w'
              = calls w
                ++ map (fun o => (o, a)) (Subscriptions.in_force history)
           /\ (forall o,
                 calls_to o (calls w')
                 = calls_to o (calls w)
                   + occurrences o (Subscriptions.in_force history))).
  { intros history a w stream Halive.
    assert (Hlist : observers stream = Subscriptions.in_force history)
      by (unfold stream; by rewrite subject_after_history).
    split; [exact Hlist|].
    destruct (Hfire stream a w Halive) as (w' & Hrun & Hcalls & Hcount).
    exists w'. rewrite <- Hlist. done. }
  assert (Hpublisher : forall (history : list Subscriptions.request)
                              (w : News.world),
      let publisher :=
        foldl Subscriptions.on_publisher News.new_NewsPublisher history in
      News.subscribed_alive publisher w ->
      News.subscribers publisher = Subscriptions.in_force history
      /\ exists w' lines,
           News.notify publisher w = (Normal tt, w')
           /\ News.console w' = News.console w ++ lines
           /\ Forall2 (fun sub line => News.line_of w None sub = Some line)
                (Subscriptions.in_force history) lines).
  { intros history w publisher Halive.
    destruct (publisher_after_history history News.new_NewsPublisher)
      as [Hlist Hnews].
    fold publisher in Hlist, Hnews. cbn in Hlist, Hnews.
    split; [exact Hlist|].
    destruct (Hnotify publisher w Halive)
      as (w' & lines & Hrun & _ & Hcons & Hlines).
    exists w', lines. rewrite <- Hlist, <- Hnews. done. }
  split; [exact Hfire|]. split; [exact Hnotify|].
  split; [exact Hsubject|]. split; [exact Hpublisher|]. split.
  - intros l a w stream Halive. unfold stream in *.
    rewrite <- subject_subscriptions in *.
    pose proof (Hsubject (Subscriptions.Subscribe <$> l) a w Halive) as Hl.
    rewrite in_force_subscriptions in Hl. exact Hl.
  - intros l w publisher Halive. unfold publisher in *.
    rewrite <- publisher_subscriptions in *.
    pose proof (Hpublisher (Subscriptions.Subscribe <$> l) w Halive) as Hl.
    rewrite in_force_subscriptions in Hl. exact Hl.
Qed.

Lemma notification_once_per_subscription_witness :
  let obs1 : loc := 1%positive in
  let obs2 : loc := 2%positive in
  let obs3 : loc := 3%positive in
  let plus := {| type := "PLUS"; value := None |} in
  let history :=
    [Subscriptions.Subscribe obs3; Subscriptions.Subscribe obs1;
     Subscriptions.Unsubscribe obs3; Subscriptions.Subscribe obs2] in
  let stream := foldl Subscriptions.on_subject new_Subject history in
  let w := {| heap := {[ obs1 := new_Observer None;
                         obs2 := new_Observer (Some (of_Z 10)) ]};
              calls := [] |} in
  let publisher :=
    foldl Subscriptions.on_publisher News.new_NewsPublisher history in
  let nw := {| News.heap := {[ obs1 := {| News.name := "A" |};
                               obs2 := {| News.name := "B" |} ]};
               News.console := [] |} in
  (exists w', fire stream plus w = (Normal tt, w')
              /\ calls w' = [(obs1, plus); (obs2, plus)])
  /\ (exists nw' lines,
        News.notify publisher nw = (Normal tt, nw')
        /\ News.console nw' = lines /\ length lines = 2)
  /\ (exists w', fire (subscribe (subscribe new_Subject obs1) obs2) plus w
                 = (Normal tt, w')
                 /\ calls w' = [(obs1, plus); (obs2, plus)])
  /\ (exists nw' lines,
        News.notify
          (News.subscribe (News.subscribe News.new_NewsPublisher obs1) obs2) nw
        = (Normal tt, nw')
        /\ News.console nw' = lines /\ length lines = 2).
Proof.
  intros obs1 obs2 obs3 plus history stream w publisher nw.
  destruct notification_once_per_subscription
    as (Hfire & Hnotify & Hsubject & Hpublisher & _ & _).
  split; [|split; [|split]].
  - destruct (Hsubject history plus w) as (_ & w' & Hrun & Hcalls & _).
    { apply (bool_decide_unpack _). vm_compute. exact I. }
    exists w'. split; [exact Hrun | exact Hcalls].
  - destruct (Hpublisher history nw) as (_ & nw' & lines & Hrun & Hcons & Hlines).
    { apply (bool_decide_unpack _). vm_compute. exact I. }
    exists nw', lines. split; [exact Hrun|]. split; [exact Hcons|].
    symmetry. exact (Forall2_length _ _ _ Hlines).
  - destruct (Hfire (subscribe (subscribe new_Subject obs1) obs2) plus w)
      as (w' & Hrun & Hcalls & _).
    { apply (bool_decide_unpack _). vm_compute. exact I. }
    exists w'. split; [exact Hrun | exact Hcalls].
  - destruct (Hnotify
                (News.subscribe (News.subscribe News.new_NewsPublisher obs1)
                   obs2) nw)
      as (nw' & lines & Hrun & _ & Hcons & Hlines).
    { apply (bool_decide_unpack _). vm_compute. exact I. }
    exists nw', lines. split; [exact Hrun|]. split; [exact Hcons|].
    symmetry. exact (Forall2_length _ _ _ Hlines).
Defined.

(** C3, as stated, fails when an observer is subscribed twice:
    [stream.subscribe(obs1); stream.subscribe(obs1); stream.fire({type:
    'PLUS'})] calls [obs1.update] twice, and takes the state of [obs1]
    from [1] to [3].  No run can satisfy "every subscribed observer is
    called exactly once" for all subjects. *)
Lemma notification_exactly_once_counterexample :
  ~ (forall (stream : Subject) (a : action) (w w' : world) (o : loc),
        subscribed_alive stream w ->
        fire stream a w = (Normal tt, w') ->
        o ∈ observers stream ->
        calls_to o (calls w') = calls_to o (calls w) + 1).
Proof.
  intros Hclaim.
  pose (obs1 := 1%positive : loc).
  pose (plus := {| type := "PLUS"; value := None |}).
  pose (stream := subscribe (subscribe new_Subject obs1) obs1).
  pose (w := {| heap := {[ obs1 := new_Observer None ]}; calls := [] |}).
  specialize (Hclaim stream plus w (fire stream plus w).2 obs1).
  assert (Hcount : calls_to obs1 (calls (fire stream plus w).2) = 2)
    by (vm_compute; reflexivity).
  rewrite Hcount in Hclaim. cbn in Hclaim.
  enough (2 = 1) by lia. apply Hclaim.
  - apply (bool_decide_unpack _). vm_compute. exact I.
  - vm_compute. reflexivity.
  - apply (bool_decide_unpack _). vm_compute. exact I.
Qed.

(** The same run, on the observer's state. *)
Lemma twice_subscribed_state :
  let obs1 : loc := 1%positive in
  let stream := subscribe (subscribe new_Subject obs1) obs1 in
  let w := {| heap := {[ obs1 := new_Observer None ]}; calls := [] |} in
  state <$> heap (fire stream {| type := "PLUS"; value := None |} w).2 !! obs1
    = Some (of_Z 3).
Proof. vm_compute. reflexivity. Qed.

(** C9. [unsubscribe(o)] removes [o] and nothing else: [o] is no longer
    in the list, what remains is the old list with entries dropped and
    none reordered, every other observer keeps all its subscriptions,
    a later [fire] makes no call to [o] and still calls every other
    observer as before; and when [o] was not subscribed the subject is
    unchanged.  The publisher's [unsubscribe] treats its list alike. *)
Theorem unsubscribe_removes_exactly (stream : Subject) (o : loc) :
  let stream' := unsubscribe stream o in
  (o ∉ observers stream')
  /\ (observers stream' `sublist_of` observers stream)
  /\ (forall o', o' <> o ->
        occurrences o' (observers stream') = occurrences o' (observers stream))
  /\ (forall (a : action) (w : world),
        subscribed_alive stream w ->
        exists w',
          fire stream' a w = (Normal tt, w')
          /\ calls w' = calls w ++ map (fun o' => (o', a)) (observers stream')
          /\ calls_to o (calls w') = calls_to o (calls w)
          /\ (forall o', o' <> o ->
                calls_to o' (calls w')
                = calls_to o' (calls w) + occurrences o' (observers stream)))
  /\ (o ∉ observers stream -> stream' = stream)
  /\ (forall publisher : News.NewsPublisher,
        let publisher' := News.unsubscribe publisher o in
        (o ∉ News.subscribers publisher')
        /\ (News.subscribers publisher'
              `sublist_of` News.subscribers publisher)
        /\ (forall o', o' <> o ->
              occurrences o' (News.subscribers publisher')
              = occurrences o' (News.subscribers publisher))
        /\ (o ∉ News.subscribers publisher -> publisher' = publisher)).
Proof.
  intros stream'. unfold stream', unsubscribe. cbn.
  split; [apply filter_ne_not_elem_of|].
  split; [apply sublist_filter|].
  split; [intros o' Hne; by apply filter_ne_occurrences|].
  split; [|split].
  - intros a w Halive.
    destruct (forEach_update (filter (fun obs => obs <> o) (observers stream))
                a w) as (w' & Hrun & Hcalls & _).
    { apply Forall_forall. intros x [_ Hx]%list_elem_of_filter.
      revert x Hx. by apply Forall_forall. }
    exists w'. split; [exact Hrun|]. split; [exact Hcalls|].
    rewrite Hcalls. split.
    + rewrite calls_to_app, calls_to_map.
      assert (Hzero : occurrences o
                        (filter (fun obs => obs <> o) (observers stream)) = 0).
      { destruct (occurrences o _) eqn:Hocc; [done|]. exfalso.
        apply (filter_ne_not_elem_of o (observers stream)).
        apply occurrences_elem_of. lia. }
      lia.
    + intros o' Hne.
      by rewrite calls_to_app, calls_to_map, filter_ne_occurrences.
  - intros Hnot. destruct stream as [l]. cbn in *. f_equal.
    by apply filter_ne_absent.
  - intros [subs news]. cbn.
    split; [apply filter_ne_not_elem_of|].
    split; [apply sublist_filter|].
    split; [intros o' Hne; by apply filter_ne_occurrences|].
    intros Hnot. unfold News.unsubscribe. cbn. f_equal.
    by apply filter_ne_absent.
Qed.

Lemma unsubscribe_removes_exactly_witness :
  let obs1 : loc := 1%positive in
  let obs2 : loc := 2%positive in
  let obs3 : loc := 3%positive in
  let plus := {| type := "PLUS"; value := None |} in
  let stream := subscribe (subscribe new_Subject obs1) obs2 in
  let w := {| heap := {[ obs1 := new_Observer None;
                         obs2 := new_Observer (Some (of_Z 10)) ]};
              calls := [] |} in
  occurrences obs1 (observers (unsubscribe stream obs2)) = 1
  /\ (exists w', fire (unsubscribe stream obs2) plus w = (Normal tt, w')
                 /\ calls_to obs2 (calls w') = 0
                 /\ calls_to obs1 (calls w') = 1)
  /\ unsubscribe stream obs3 = stream.
Proof.
  intros obs1 obs2 obs3 plus stream w.
  destruct (unsubscribe_removes_exactly stream obs2)
    as (_ & _ & Hkeep & Hfire & _).
  destruct (unsubscribe_removes_exactly stream obs3) as (_ & _ & _ & _ & Hid & _).
  split; [|split].
  - rewrite (Hkeep obs1); [reflexivity | discriminate].
  - destruct (Hfire plus w) as (w' & Hrun & _ & Hnone & Hothers).
    { apply (bool_decide_unpack _). vm_compute. exact I. }
    exists w'. split; [exact Hrun|]. split; [exact Hnone|].
    rewrite (Hothers obs1); [reflexivity | discriminate].
  - apply Hid. apply (bool_decide_unpack _). vm_compute. exact I.
Defined.

End ObserverFacts.

(** ** Decorator *)

Section DecoratorFacts.
Import JS Decorator.

Lemma append_assoc (s1 s2 s3 : string) :
  (s1 +:+ s2) +:+ s3 = s1 +:+ s2 +:+ s3.
Proof.
  induction s1 as [|c s1 IH]; [reflexivity|].
  change (String c ((s1 +:+ s2) +:+ s3) = String c (s1 +:+ s2 +:+ s3)).
  by rewrite IH.
Qed.

Lemma alloc_fresh (o : object) (h : gmap loc object) :
  exists l, alloc o h = (Normal l, <[l := o]> h) /\ h !! l = None.
Proof.
  exists (fresh (dom h)). split; [reflexivity|].
  apply not_elem_of_dom, is_fresh.
Qed.

Lemma getContent_Text (stack : nat) (l : loc) (content : string)
    (h : gmap loc object) :
  h !! l = Some (Text content) ->
  getContent (S stack) l h = (Normal content, h).
Proof. intros H. cbn. unfold bind, deref. by rewrite H. Qed.

(** One decorator around a component that yields [inner]. *)
Lemma getContent_Wrapper (stack : nat) (l text : loc) (class : decorator)
    (inner : string) (h : gmap loc object) :
  h !! l = Some (Wrapper class text) ->
  getContent stack text h = (Normal inner, h) ->
  getContent (S stack) l h
    = (Normal match class with
              | TextDecorator => inner
              | BoldDecorator => "<b>" +:+ inner +:+ "</b>"
              | ItalicDecorator => "<i>" +:+ inner +:+ "</i>"
              | UnderlineDecorator => "<u>" +:+ inner +:+ "</u>"
              end, h).
Proof.
  intros Hl Hinner. cbn. unfold bind, deref. rewrite Hl.
  destruct class; cbn; unfold bind; by rewrite Hinner.
Qed.

(** Allocation leaves what [getContent] reads in place. *)
Lemma getContent_insert (stack : nat) (this l : loc) (o : object)
    (content : string) (h : gmap loc object) :
  h !! l = None ->
  getContent stack this h = (Normal content, h) ->
  getContent stack this (<[l := o]> h) = (Normal content, <[l := o]> h).
Proof.
  intros Hfresh. revert this content.
  induction stack as [|stack IH]; intros this content; [discriminate|].
  cbn. unfold bind, deref.
  destruct (h !! this) as [obj|] eqn:Hthis; [|discriminate].
  assert (Hne : l <> this) by congruence.
  rewrite lookup_insert_ne, Hthis by exact Hne.
  destruct obj as [c|class text]; [by intros [= ->]|].
  destruct class; cbn; unfold bind;
    destruct (getContent stack text h) as [[inner|e] h'] eqn:Hinner;
    try discriminate; intros [= <- ->];
    rewrite (IH text _ Hinner) + rewrite (IH text _ eq_refl); try reflexivity.
Qed.

(** C5. [new BoldDecorator(new Text('Hello World')).getContent()] is
    ['<b>Hello World</b>'], and afterwards the wrapped [Text] still has
    the content ['Hello World']. *)
Theorem decorator_doctest_bold (stack : nat) (h : gmap loc object) :
  exists simpleText h',
    bold_text (S (S stack)) "Hello World" h
      = (Normal (simpleText, "<b>Hello World</b>"), h')
    /\ h' !! simpleText = Some (Text "Hello World").
Proof.
  destruct (alloc_fresh (Text "Hello World") h) as (l1 & Hl1 & Hf1).
  set (h1 := <[l1 := Text "Hello World"]> h) in *.
  destruct (alloc_fresh (Wrapper BoldDecorator l1) h1) as (l2 & Hl2 & Hf2).
  set (h2 := <[l2 := Wrapper BoldDecorator l1]> h1) in *.
  assert (H1 : h1 !! l1 = Some (Text "Hello World"))
    by apply lookup_insert_eq.
  assert (Hne : l2 <> l1) by congruence.
  exists l1, h2. split.
  - unfold bold_text, bind, new_Text, new_decorator. rewrite Hl1, Hl2.
    rewrite (getContent_Wrapper (S stack) l2 l1 BoldDecorator "Hello World").
    + reflexivity.
    + apply lookup_insert_eq.
    + apply getContent_insert; [exact Hf2|].
      by apply getContent_Text.
  - unfold h2. by rewrite lookup_insert_ne.
Qed.

(** C6. Decorators nest: underline around italic around bold around
    [Text(s)] yields [s] inside the three pairs of tags, innermost
    first; for ['Decorator Pattern'] this is the string printed in the
    write-up. *)
Theorem decorators_compose (stack : nat) (s : string) (h : gmap loc object) :
  (formattedText (4 + stack) s h).1
    = Normal ("<u>" +:+ "<i>" +:+ "<b>" +:+ s +:+ "</b>" +:+ "</i>" +:+ "</u>")
  /\ (formattedText (4 + stack) "Decorator Pattern" h).1
    = Normal "<u><i><b>Decorator Pattern</b></i></u>".
Proof.
  assert (Hgen : forall s',
    (formattedText (4 + stack) s' h).1
    = Normal ("<u>" +:+ "<i>" +:+ "<b>" +:+ s' +:+ "</b>" +:+ "</i>"
              +:+ "</u>")).
  { intros s'.
    destruct (alloc_fresh (Text s') h) as (l1 & Hl1 & Hf1).
    set (h1 := <[l1 := Text s']> h) in *.
    destruct (alloc_fresh (Wrapper BoldDecorator l1) h1) as (l2 & Hl2 & Hf2).
    set (h2 := <[l2 := Wrapper BoldDecorator l1]> h1) in *.
    destruct (alloc_fresh (Wrapper ItalicDecorator l2) h2)
      as (l3 & Hl3 & Hf3).
    set (h3 := <[l3 := Wrapper ItalicDecorator l2]> h2) in *.
    destruct (alloc_fresh (Wrapper UnderlineDecorator l3) h3)
      as (l4 & Hl4 & Hf4).
    set (h4 := <[l4 := Wrapper UnderlineDecorator l3]> h3) in *.
    assert (G1 : getContent (S stack) l1 h1 = (Normal s', h1))
      by (apply getContent_Text, lookup_insert_eq).
    apply (getContent_insert _ _ l2 (Wrapper BoldDecorator l1) _ _ Hf2) in G1.
    fold h2 in G1.
    assert (G2 : getContent (2 + stack) l2 h2
                 = (Normal ("<b>" +:+ s' +:+ "</b>"), h2))
      by (apply (getContent_Wrapper _ l2 l1 BoldDecorator);
          [apply lookup_insert_eq | exact G1]).
    apply (getContent_insert _ _ l3 (Wrapper ItalicDecorator l2) _ _ Hf3)
      in G2.
    fold h3 in G2.
    assert (G3 : getContent (3 + stack) l3 h3
                 = (Normal ("<i>" +:+ ("<b>" +:+ s' +:+ "</b>") +:+ "</i>"),
                    h3))
      by (apply (getContent_Wrapper _ l3 l2 ItalicDecorator);
          [apply lookup_insert_eq | exact G2]).
    apply (getContent_insert _ _ l4 (Wrapper UnderlineDecorator l3) _ _ Hf4)
      in G3.
    fold h4 in G3.
    unfold formattedText, bind, new_Text, new_decorator.
    rewrite Hl1, Hl2, Hl3, Hl4.
    change (4 + stack) with (S (3 + stack)).
    rewrite (getContent_Wrapper (3 + stack) l4 l3 UnderlineDecorator _ h4
               (lookup_insert_eq _ _ _) G3).
    cbn [fst]. f_equal.
    change ("<b>" +:+ s' +:+ "</b>") with (("<b>" +:+ s') +:+ "</b>").
    by rewrite !append_assoc. }
  split; [apply Hgen|]. rewrite Hgen. reflexivity.
Qed.

(** Each wrapper surrounds whatever its component yields, so the
    outcome depends on the order of wrapping. *)
Lemma decorators_do_not_commute :
  (formattedText 4 "x" ∅).1 = Normal "<u><i><b>x</b></i></u>"
  /\ ((text <- new_Text "x" ;;
       underline <- new_decorator UnderlineDecorator text ;;
       bold <- new_decorator BoldDecorator underline ;;
       getContent 3 bold)%js ∅).1 = Normal "<b><u>x</u></b>".
Proof. split; vm_compute; reflexivity. Qed.

(** A decorator made to wrap itself exhausts the stack. *)
Lemma getContent_cycle (stack : nat) :
  let self : loc := 1%positive in
  (getContent stack self {[ self := Wrapper BoldDecorator self ]}).1
    = Throw RangeError.
Proof.
  intros self. induction stack as [|stack IH]; [reflexivity|].
  unfold getContent; fold getContent. unfold bind, deref.
  rewrite lookup_singleton_eq.
  destruct (getContent stack self _) as [[v|e] h']; cbn in *; congruence.
Qed.

End DecoratorFacts.

(** ** Singleton *)

Section DatabaseFacts.
Import JS Database.

Lemma getInstance_set (w : world) (db : loc) :
  instance w = Some db -> getInstance w = (Normal (Some db), w).
Proof.
  intros H. unfold getInstance, bind, get. rewrite H. cbn. by rewrite H.
Qed.

Lemma getInstance_unset (w : world) :
  instance w = None ->
  let db := fresh (dom (heap w)) in
  getInstance w
    = (Normal (Some db),
       {| instance := Some db;
          heap := <[db := DatabaseObject]> (heap w);
          console := console w ++ ["Подключение к базе данных..."] |}).
Proof. intros H db. unfold getInstance, bind, get. rewrite H. reflexivity. Qed.

Lemma constructions_query (c : list string) (sql : string) :
  constructions (c ++ ["Выполняем запрос: " +:+ sql]) = constructions c.
Proof.
  unfold constructions. rewrite filter_app, length_app.
  rewrite filter_cons, decide_False; [cbn; lia|].
  intros H. cbv in H. discriminate H.
Qed.

Lemma constructions_constructor (c : list string) :
  constructions (c ++ ["Подключение к базе данных..."]) = S (constructions c).
Proof.
  unfold constructions. rewrite filter_app, length_app.
  rewrite filter_cons, decide_True by reflexivity. cbn. lia.
Qed.

(** Once the instance exists, every call returns it and nothing is
    constructed. *)
Lemma run_instance_set (program : list call) (w : world) (db : loc) :
  instance w = Some db ->
  exists w',
    run program w
      = (Normal (replicate (getInstance_calls program) (Some db)), w')
    /\ instance w' = Some db
    /\ heap w' = heap w
    /\ constructions (console w') = constructions (console w).
Proof.
  revert w. induction program as [|[|sql] rest IH]; intros w Hset.
  - exists w. done.
  - destruct (IH w Hset) as (w' & Hrun & Hinst & Hheap & Hcons).
    exists w'. split; [|done].
    cbn. unfold bind. rewrite (getInstance_set w db Hset), Hrun. reflexivity.
  - set (w1 := {| instance := instance w; heap := heap w;
                  console := console w ++ ["Выполняем запрос: " +:+ sql] |}).
    destruct (IH w1 Hset) as (w' & Hrun & Hinst & Hheap & Hcons).
    exists w'. split; [exact Hrun|]. split; [exact Hinst|].
    split; [exact Hheap|]. rewrite Hcons. apply constructions_query.
Qed.

Lemma run_any (program : list call) (w : world) :
  exists db w',
    run program w
      = (Normal (replicate (getInstance_calls program) (Some db)), w')
    /\ size (heap w') <= S (size (heap w))
    /\ constructions (console w') <= S (constructions (console w)).
Proof.
  revert w. induction program as [|[|sql] rest IH]; intros w.
  - exists 1%positive, w. split; [reflexivity|]. split; lia.
  - destruct (instance w) as [db|] eqn:Hinst.
    + destruct (run_instance_set (GetInstance :: rest) w db Hinst)
        as (w' & Hrun & _ & Hheap & Hcons).
      exists db, w'. split; [exact Hrun|]. rewrite Hheap, Hcons. split; lia.
    + pose proof (getInstance_unset w Hinst) as Hget. cbn zeta in Hget.
      set (db := fresh (dom (heap w))) in *.
      set (w1 := {| instance := Some db;
                    heap := <[db := DatabaseObject]> (heap w);
                    console := console w ++ ["Подключение к базе данных..."] |})
        in *.
      destruct (run_instance_set rest w1 db eq_refl)
        as (w' & Hrun & _ & Hheap & Hcons).
      exists db, w'. split; [|split].
      * cbn. unfold bind. rewrite Hget, Hrun. reflexivity.
      * rewrite Hheap. cbn. rewrite map_size_insert_None; [lia|].
        apply not_elem_of_dom, is_fresh.
      * rewrite Hcons. unfold w1. cbn [console].
        rewrite constructions_constructor. lia.
  - set (w1 := {| instance := instance w; heap := heap w;
                  console := console w ++ ["Выполняем запрос: " +:+ sql] |}).
    destruct (IH w1) as (db & w' & Hrun & Hheap & Hcons).
    exists db, w'. split; [exact Hrun|]. split; [exact Hheap|].
    unfold w1 in Hcons. cbn [console] in Hcons.
    rewrite constructions_query in Hcons. exact Hcons.
Qed.

(** What a program leaves behind, exactly: nothing new when it never
    asks for the instance or when the instance exists already, and
    otherwise one new [Database] object, stored as the instance, and
    one run of the constructor body. *)
Lemma run_exact (program : list call) (w : world) :
  exists db w',
    run program w
      = (Normal (replicate (getInstance_calls program) (Some db)), w')
    /\ match getInstance_calls program, instance w with
       | 0, _ =>
           instance w' = instance w /\ heap w' = heap w
           /\ constructions (console w') = constructions (console w)
       | S _, Some db0 =>
           db = db0 /\ instance w' = Some db /\ heap w' = heap w
           /\ constructions (console w') = constructions (console w)
       | S _, None =>
           instance w' = Some db /\ heap w !! db = None
           /\ heap w' = <[db := DatabaseObject]> (heap w)
           /\ constructions (console w') = S (constructions (console w))
       end.
Proof.
  revert w. induction program as [|[|sql] rest IH]; intros w.
  - exists 1%positive, w. done.
  - change (getInstance_calls (GetInstance :: rest))
      with (S (getInstance_calls rest)).
    destruct (instance w) as [db0|] eqn:Hinst.
    + destruct (run_instance_set (GetInstance :: rest) w db0 Hinst)
        as (w' & Hrun & Hinst' & Hheap & Hcons).
      exists db0, w'. done.
    + pose proof (getInstance_unset w Hinst) as Hget. cbn zeta in Hget.
      set (db := fresh (dom (heap w))) in *.
      set (w1 := {| instance := Some db;
                    heap := <[db := DatabaseObject]> (heap w);
                    console := console w ++ ["Подключение к базе данных..."] |})
        in *.
      destruct (run_instance_set rest w1 db eq_refl)
        as (w' & Hrun & Hinst' & Hheap & Hcons).
      exists db, w'. split.
      * cbn [run]. unfold bind. rewrite Hget, Hrun. reflexivity.
      * split; [exact Hinst'|].
        split; [apply not_elem_of_dom, is_fresh|].
        split; [exact Hheap|].
        rewrite Hcons. unfold w1. cbn [console].
        apply constructions_constructor.
  - change (getInstance_calls (Query sql :: rest))
      with (getInstance_calls rest).
    set (w1 := {| instance := instance w; heap := heap w;
                  console := console w ++ ["Выполняем запрос: " +:+ sql] |}).
    destruct (IH w1) as (db & w' & Hrun & Hexact).
    exists db, w'. split; [exact Hrun|].
    unfold w1 in Hexact. cbn [instance heap console] in Hexact.
    rewrite constructions_query in Hexact. exact Hexact.
Qed.

End DatabaseFacts.

Section ConfigFacts.
Import JS Config.

Lemma new_Config_set (w : world) (c : loc) :
  instance_is w c ->
  exists w', new_Config w = (Normal c, w') /\ instance_is w' c.
Proof.
  intros [H [settings Hc]]. unfold new_Config, bind, alloc, get. cbn.
  rewrite H. eexists. split; [reflexivity|].
  split; [reflexivity|]. exists settings. cbn.
  rewrite lookup_insert_ne; [exact Hc|].
  intros Heq. apply (is_fresh (dom (heap w))). rewrite Heq.
  by apply elem_of_dom.
Qed.

Lemma new_Config_unset (w : world) :
  instance w = None ->
  exists c w', new_Config w = (Normal c, w') /\ instance_is w' c.
Proof.
  intros H. unfold new_Config, bind, alloc, get. cbn. rewrite H.
  eexists _, _. split; [reflexivity|]. split; [reflexivity|].
  eexists. cbn. apply lookup_insert_eq.
Qed.

Lemma new_SingletonProxy_set (w : world) (c : loc) :
  instance_is w c -> new_SingletonProxy w = (Normal c, w).
Proof.
  intros [H _]. unfold new_SingletonProxy, bind, get. rewrite H. cbn.
  by rewrite H.
Qed.

Lemma new_SingletonProxy_unset (w : world) :
  instance w = None ->
  exists c w', new_SingletonProxy w = (Normal c, w') /\ instance_is w' c.
Proof.
  intros H. destruct (new_Config_unset w H) as (c & w1 & Hnew & Hinst & Hc).
  exists c, {| instance := Some c; heap := heap w1 |}.
  unfold new_SingletonProxy, bind, get. rewrite H, Hnew. done.
Qed.

Lemma run_config_set (program : list construction) (w : world) (c : loc) :
  instance_is w c ->
  exists w',
    run program w = (Normal (replicate (constructions program) c), w')
    /\ instance_is w' c.
Proof.
  revert w. induction program as [|[|] rest IH]; intros w Hset.
  - exists w. done.
  - destruct (IH w Hset) as (w' & Hrun & Hinst).
    exists w'. split; [|done]. cbn. unfold bind.
    rewrite (new_SingletonProxy_set w c Hset), Hrun. reflexivity.
  - destruct (new_Config_set w c Hset) as (w1 & Hnew & Hinst1).
    destruct (IH w1 Hinst1) as (w' & Hrun & Hinst).
    exists w'. split; [|done]. cbn. unfold bind.
    rewrite Hnew, Hrun. reflexivity.
Qed.

(** From the start of a script: one object for all constructions, and
    that object is the [Config] instance. *)
Lemma run_config_start (program : list construction) :
  exists c w',
    run program start = (Normal (replicate (constructions program) c), w')
    /\ (constructions program = 0 \/ instance_is w' c).
Proof.
  destruct program as [|[|] rest].
  - exists 1%positive, start. split; [reflexivity | by left].
  - destruct (new_SingletonProxy_unset start eq_refl)
      as (c & w1 & Hnew & Hinst1).
    destruct (run_config_set rest w1 c Hinst1) as (w' & Hrun & Hinst).
    exists c, w'. split; [|by right].
    cbn -[start]. unfold bind. rewrite Hnew, Hrun. reflexivity.
  - destruct (new_Config_unset start eq_refl) as (c & w1 & Hnew & Hinst1).
    destruct (run_config_set rest w1 c Hinst1) as (w' & Hrun & Hinst).
    exists c, w'. split; [|by right].
    cbn -[start]. unfold bind. rewrite Hnew, Hrun. reflexivity.
Qed.

End ConfigFacts.

(** C7. In any client code, every [Database.getInstance()] call
    returns, and all of them return one and the same object.  That
    object is the instance: when the instance exists already it is
    returned and nothing is created; when it does not, the first call
    creates exactly one [Database] object, stores it as the instance
    and runs the constructor body once, and no later call creates
    anything.  So from the start of a script a program that asks for
    the instance ends with exactly one [Database] object, which is the
    instance, and one run of the constructor body.  Likewise all [new
    SingletonProxy()] constructions, also when mixed with direct [new
    Config()], yield one and the same object, the [Config]
    instance. *)
Theorem singleton_one_instance :
  (forall (program : list Database.call) (w : Database.world),
      exists db w',
        Database.run program w
          = (JS.Normal
               (replicate (Database.getInstance_calls program) (Some db)), w')
        /\ size (Database.heap w') <= S (size (Database.heap w))
        /\ Database.constructions (Database.console w')
           <= S (Database.constructions (Database.console w))
        /\ match Database.getInstance_calls program, Database.instance w with
           | 0, _ =>
               Database.instance w' = Database.instance w
               /\ Database.heap w' = Database.heap w
               /\ Database.constructions (Database.console w')
                  = Database.constructions (Database.console w)
           | S _, Some db0 =>
               db = db0
               /\ Database.instance w' = Some db
               /\ Database.heap w' = Database.heap w
               /\ Database.constructions (Database.console w')
                  = Database.constructions (Database.console w)
           | S _, None =>
               Database.instance w' = Some db
               /\ Database.heap w !! db = None
               /\ Database.heap w'
                  = <[db := Database.DatabaseObject]> (Database.heap w)
               /\ Database.constructions (Database.console w')
                  = S (Database.constructions (Database.console w))
           end)
  /\ (forall program : list Database.call,
      exists db w',
        Database.run program Database.start
          = (JS.Normal
               (replicate (Database.getInstance_calls program) (Some db)), w')
        /\ size (Database.heap w') <= 1
        /\ Database.constructions (Database.console w') <= 1
        /\ match Database.getInstance_calls program with
           | 0 =>
               Database.instance w' = None
               /\ Database.heap w' = ∅
               /\ Database.constructions (Database.console w') = 0
           | S _ =>
               Database.instance w' = Some db
               /\ Database.heap w' = {[ db := Database.DatabaseObject ]}
               /\ size (Database.heap w') = 1
               /\ Database.constructions (Database.console w') = 1
           end)
  /\ (forall program : list Config.construction,
      exists c w',
        Config.run program Config.start
          = (JS.Normal (replicate (Config.constructions program) c), w')
        /\ (Config.constructions program = 0
            \/ (Config.instance w' = Some c
                /\ exists settings,
                     Config.heap w' !! c
                     = Some (Config.ConfigObject (Some settings))))).
Proof.
  split; [|split; [|exact run_config_start]].
  - intros program w.
    destruct (run_exact program w) as (db & w' & Hrun & Hexact).
    exists db, w'. split; [exact Hrun|].
    destruct (Database.getInstance_calls program) as [|n];
      [|destruct (Database.instance w) as [db0|]].
    + destruct Hexact as (Hinst & Hheap & Hcons).
      rewrite Hheap, Hcons. split; [lia|]. split; [lia|]. done.
    + destruct Hexact as (Hdb & Hinst & Hheap & Hcons).
      rewrite Hheap, Hcons. split; [lia|]. split; [lia|]. done.
    + destruct Hexact as (Hinst & Hfresh & Hheap & Hcons).
      rewrite Hheap, Hcons, (map_size_insert_None _ _ _ Hfresh).
      split; [lia|]. split; [lia|]. done.
  - intros program.
    destruct (run_exact program Database.start) as (db & w' & Hrun & Hexact).
    exists db, w'. split; [exact Hrun|].
    destruct (Database.getInstance_calls program) as [|n].
    + cbn in Hexact. destruct Hexact as (Hinst & Hheap & Hcons).
      rewrite Hheap, Hcons, map_size_empty.
      split; [lia|]. split; [lia|]. done.
    + cbn in Hexact. destruct Hexact as (Hinst & _ & Hheap & Hcons).
      assert (Hsingle : Database.heap w' = {[ db := Database.DatabaseObject ]})
        by (rewrite Hheap; apply insert_empty).
      rewrite Hcons, Hsingle, map_size_singleton.
      split; [lia|]. split; [lia|]. done.
Qed.

(** The two snippets as written. *)
Lemma singleton_snippets :
  (Database.run [Database.GetInstance; Database.GetInstance;
                 Database.Query "SELECT * FROM users"] Database.start).1
    = JS.Normal [Some 1%positive; Some 1%positive]
  /\ Database.console
       (Database.run [Database.GetInstance; Database.GetInstance;
                      Database.Query "SELECT * FROM users"] Database.start).2
     = ["Подключение к базе данных...";
        "Выполняем запрос: SELECT * FROM users"]
  /\ (Config.run [Config.NewSingletonProxy; Config.NewSingletonProxy]
        Config.start).1
     = JS.Normal [1%positive; 1%positive].
Proof. split; [|split]; vm_compute; reflexivity. Qed.

(** * Further properties *)

(** ** Decorator chains *)

Section TextChainFacts.
Import JS Decorator TextChain.

(** X1. [getContent] only reads: whatever the receiver, the heap and
    the stack left, and whether the call returns or throws, the heap
    afterwards is the heap before. *)
Theorem getContent_reads_only (stack : nat) (this : loc)
    (h : gmap loc object) :
  (getContent stack this h).2 = h.
Proof.
  revert this. induction stack as [|stack IH]; intros this; [reflexivity|].
  cbn [getContent]. unfold bind, deref.
  destruct (h !! this) as [[content|class text]|]; [reflexivity| |reflexivity].
  specialize (IH text).
  destruct class; cbn; unfold bind;
    destruct (getContent stack text h) as [[inner|e] h']; cbn in *;
    congruence.
Qed.

Lemma wrap_getContent (classes : list decorator) (component : loc)
    (inner : string) (stack : nat) (h : gmap loc object) :
  getContent (S stack) component h = (Normal inner, h) ->
  exists top h',
    wrap classes component h = (Normal top, h')
    /\ getContent (length classes + S stack) top h'
       = (Normal (foldl (fun content class => tagged class content)
                    inner classes), h').
Proof.
  revert component inner stack h.
  induction classes as [|class rest IH]; intros component inner stack h Hc.
  - exists component, h. split; [reflexivity | exact Hc].
  - destruct (alloc_fresh (Wrapper class component) h) as (d & Hd & Hfresh).
    set (h1 := <[d := Wrapper class component]> h) in *.
    assert (Hd1 : getContent (S (S stack)) d h1 = (Normal (tagged class inner), h1)).
    { unfold tagged.
      apply (getContent_Wrapper (S stack) d component class inner h1).
      - apply lookup_insert_eq.
      - by apply getContent_insert. }
    destruct (IH d (tagged class inner) (S stack) h1 Hd1)
      as (top & h' & Hwrap & Htop).
    exists top, h'. split.
    + cbn [wrap]. unfold bind, new_decorator. rewrite Hd. exact Hwrap.
    + cbn [length foldl]. replace (S (length rest) + S stack)
        with (length rest + S (S stack)) by lia. exact Htop.
Qed.

(** X2. Decorators compose to any depth: wrapping [Text(s)] in
    decorators of any classes, in any number, yields [s] with each
    decorator's tags put around it in the order of wrapping, provided
    the stack allows one activation per object. *)
Theorem decorated_text_content (classes : list decorator) (s : string)
    (stack : nat) (h : gmap loc object) :
  length classes < stack ->
  (decorated_text stack classes s h).1
    = Normal (foldl (fun content class => tagged class content) s classes).
Proof.
  intros Hstack.
  destruct (alloc_fresh (Text s) h) as (text & Htext & Hfresh).
  set (h1 := <[text := Text s]> h) in *.
  assert (Hs : getContent (S (stack - S (length classes))) text h1
               = (Normal s, h1))
    by apply getContent_Text, lookup_insert_eq.
  destruct (wrap_getContent classes text s _ h1 Hs)
    as (top & h' & Hwrap & Htop).
  unfold decorated_text, bind, new_Text. rewrite Htext, Hwrap.
  replace (length classes + S (stack - S (length classes)))
    with stack in Htop by lia.
  by rewrite Htop.
Qed.

Lemma decorated_text_content_witness :
  (decorated_text 3 [BoldDecorator; TextDecorator] "x" ∅).1
    = Normal "<b>x</b>".
Proof.
  apply (decorated_text_content [BoldDecorator; TextDecorator] "x" 3 ∅).
  cbn. lia.
Defined.

End TextChainFacts.

(** ** The caching decorator *)

Section CacheDecoratorFacts.
Import JS CacheDecorator.
Context {args result : Type}.
Variable stringify : args -> string.
Variable f : args -> result.

Lemma computed_hit (key : string) : computed ("Из кэша: " +:+ key) = false.
Proof. reflexivity. Qed.

Lemma computed_miss (key : string) : computed ("Вычислено: " +:+ key) = true.
Proof.
  unfold computed.
  change ("Вычислено: " +:+ key) with (String.append "Вычислено: " key).
  generalize "Вычислено: ". intros p.
  induction p as [|c p IH]; [by destruct key|].
  change (String c p +:+ key) with (String c (p +:+ key)). cbn.
  destruct (ascii_dec c c); [exact IH | done].
Qed.

Lemma cached_pure (a : args) (st : state result) :
  cached stringify (fun a => ret (f a)) a st
  = match cache st !! stringify a with
    | Some r =>
        (Normal r,
         {| cache := cache st;
            out := out st ++ ["Из кэша: " +:+ stringify a] |})
    | None =>
        (Normal (f a),
         {| cache := <[stringify a := f a]> (cache st);
            out := out st ++ ["Вычислено: " +:+ stringify a] |})
    end.
Proof.
  unfold cached, bind, get. destruct (cache st !! stringify a); reflexivity.
Qed.

Lemma calls_pure (l : list args) (st : state result) :
  cache_sound stringify f st ->
  exists results st',
    calls stringify (fun a => ret (f a)) l st = (Normal results, st')
    /\ cache_sound stringify f st'
    /\ Forall2 (fun a r => exists a', stringify a' = stringify a /\ r = f a')
         l results
    /\ dom (cache st') = dom (cache st) ∪ list_to_set (stringify <$> l)
    /\ length (filter (fun line => computed line = true) (out st'))
       + size (cache st)
       = length (filter (fun line => computed line = true) (out st))
         + size (cache st').
Proof.
  revert st. induction l as [|a l IH]; intros st Hsound.
  - exists [], st. split; [reflexivity|]. split; [exact Hsound|].
    split; [constructor|]. split; [set_solver | lia].
  - pose proof (cached_pure a st) as Hcall.
    destruct (cache st !! stringify a) as [r|] eqn:Hlook.
    + set (st1 := {| cache := cache st;
                     out := out st ++ ["Из кэша: " +:+ stringify a] |}) in *.
      destruct (IH st1 Hsound) as (rs & st' & Hrun & Hs' & Hall & Hdom & Hcount).
      exists (r :: rs), st'. split; [|split; [exact Hs'|split; [|split]]].
      * cbn [calls]. unfold bind. rewrite Hcall, Hrun. reflexivity.
      * constructor; [|exact Hall].
        destruct (Hsound _ _ Hlook) as (a' & Hkey & Hr). by exists a'.
      * rewrite Hdom. cbn.
        assert (stringify a ∈ dom (cache st)) by (apply elem_of_dom; eauto).
        set_solver.
      * unfold st1 in Hcount. cbn [out cache] in Hcount.
        rewrite filter_app, length_app, filter_cons in Hcount.
        rewrite decide_False in Hcount
          by (rewrite computed_hit; discriminate).
        cbn in Hcount. lia.
    + set (st1 := {| cache := <[stringify a := f a]> (cache st);
                     out := out st ++ ["Вычислено: " +:+ stringify a] |}) in *.
      assert (Hsound1 : cache_sound stringify f st1).
      { intros k r. cbn. rewrite lookup_insert. case_decide as Hk.
        - intros [= <-]. by exists a.
        - apply Hsound. }
      destruct (IH st1 Hsound1)
        as (rs & st' & Hrun & Hs' & Hall & Hdom & Hcount).
      exists (f a :: rs), st'. split; [|split; [exact Hs'|split; [|split]]].
      * cbn [calls]. unfold bind. rewrite Hcall, Hrun. reflexivity.
      * constructor; [by exists a | exact Hall].
      * rewrite Hdom. cbn. rewrite dom_insert_L. set_solver.
      * unfold st1 in Hcount. cbn [out cache] in Hcount.
        rewrite filter_app, length_app, filter_cons in Hcount.
        rewrite decide_True in Hcount by apply computed_miss.
        rewrite map_size_insert_None in Hcount by exact Hlook.
        cbn in Hcount. lia.
Qed.

(** X3. Memoisation is sound for a function that only computes: in
    any sequence of calls of the decorated function, starting with an
    empty cache, every call returns the value of the function on an
    argument list with the same key; when the key tells argument lists
    apart, the decorated function returns exactly what the function
    returns. *)
Theorem cached_returns_func (l : list args) :
  exists results st',
    calls stringify (fun a => ret (f a)) l start = (Normal results, st')
    /\ Forall2 (fun a r => exists a', stringify a' = stringify a /\ r = f a')
         l results
    /\ ((forall a a', stringify a = stringify a' -> a = a') ->
        results = map f l).
Proof.
  destruct (calls_pure l start) as (rs & st' & Hrun & _ & Hall & _).
  { intros k r Hk. cbn in Hk. by rewrite lookup_empty in Hk. }
  exists rs, st'. split; [exact Hrun|]. split; [exact Hall|].
  intros Hinj. clear Hrun. induction Hall as [|a r l rs (a' & Hkey & ->) _ IH].
  - reflexivity.
  - cbn. rewrite IH. by rewrite (Hinj _ _ Hkey).
Qed.

(** X4. A decorated function that only computes its result (it
    neither prints nor throws) is computed once per key: after any
    sequence of calls from an empty cache, the number of lines
    reporting a computation is the number of distinct keys among the
    calls, and it is the size of the cache; every call prints one
    line. *)
Theorem cached_computes_once_per_key (l : list args) :
  let st' := (calls stringify (fun a => ret (f a)) l start).2 in
  length (filter (fun line => computed line = true) (out st'))
    = size (list_to_set (stringify <$> l) : gset string)
  /\ size (cache st') = size (list_to_set (stringify <$> l) : gset string)
  /\ length (out st') = length l.
Proof.
  intros st'.
  assert (Hlen : forall (l' : list args) (st : state result),
            length (out (calls stringify (fun a => ret (f a)) l' st).2)
            = length (out st) + length l').
  { induction l' as [|a l' IH]; intros st; [cbn; lia|].
    cbn [calls]. unfold bind. rewrite cached_pure.
    destruct (cache st !! stringify a);
      match goal with
      | |- context [calls stringify ?g l' ?s] =>
          specialize (IH s); destruct (calls stringify g l' s) as [[rs|e] s']
      end; cbn in *; rewrite ?length_app in *; cbn in *; lia. }
  destruct (calls_pure l start) as (rs & st1 & Hrun & _ & _ & Hdom & Hcount).
  { intros k r Hk. cbn in Hk. by rewrite lookup_empty in Hk. }
  assert (Hst : st' = st1) by (unfold st'; by rewrite Hrun).
  rewrite Hst. cbn in Hdom, Hcount.
  rewrite map_size_empty in Hcount.
  rewrite dom_empty_L, (left_id_L ∅ (∪)) in Hdom.
  rewrite <- Hdom, size_dom. split; [lia|]. split; [reflexivity|].
  rewrite <- Hst. unfold st'. rewrite Hlen. reflexivity.
Qed.

End CacheDecoratorFacts.

Lemma cached_returns_func_witness :
  (CacheDecorator.calls (fun a : string => a)
     (fun a => JS.ret (String.length a)) ["a"; "a"; "bb"]
     CacheDecorator.start).1
  = JS.Normal [1; 1; 2].
Proof.
  destruct (cached_returns_func (fun a : string => a) String.length
              ["a"; "a"; "bb"]) as (rs & st' & Hrun & _ & Hinj).
  rewrite Hrun. cbn [fst]. rewrite Hinj; [reflexivity|].
  intros a a' H. exact H.
Defined.

(** ** Subscriptions and the observers' states *)

Section SubscriptionFacts.
Import JS ObserverPattern.

Lemma filter_ne_app_same (o : loc) (l : list loc) :
  filter (fun obs => obs <> o) (l ++ [o]) = filter (fun obs => obs <> o) l.
Proof.
  rewrite filter_app, filter_cons, decide_False by (intros H; by apply H).
  by rewrite filter_nil, app_nil_r.
Qed.

Lemma filter_ne_app_other (o o' : loc) (l : list loc) :
  o <> o' ->
  filter (fun obs => obs <> o) (l ++ [o'])
  = filter (fun obs => obs <> o) l ++ [o'].
Proof.
  intros Hne. rewrite filter_app, filter_cons, decide_True by congruence.
  by rewrite filter_nil.
Qed.

Lemma filter_ne_comm (o o' : loc) (l : list loc) :
  filter (fun obs => obs <> o') (filter (fun obs => obs <> o) l)
  = filter (fun obs => obs <> o) (filter (fun obs => obs <> o') l).
Proof.
  rewrite !list_filter_filter. apply list_filter_iff. intros x. tauto.
Qed.

Lemma filter_ne_idemp (o : loc) (l : list loc) :
  filter (fun obs => obs <> o) (filter (fun obs => obs <> o) l)
  = filter (fun obs => obs <> o) l.
Proof.
  rewrite list_filter_filter. apply list_filter_iff. intros x. tauto.
Qed.

Lemma occurrences_snoc (o : loc) (l : list loc) :
  occurrences o (l ++ [o]) = S (occurrences o l).
Proof.
  rewrite occurrences_app. unfold occurrences at 2.
  rewrite filter_cons, decide_True by done. cbn. lia.
Qed.

(** X5. How [subscribe] and [unsubscribe] compose, for the subject and
    for the publisher alike.  Subscribing [o] adds one subscription of
    [o]; unsubscribing [o] right after leaves no subscription of [o]
    at all, the older ones included, so it gives back the subject
    exactly when [o] was not subscribed before.  Unsubscribing twice is
    unsubscribing once; unsubscriptions commute; and unsubscribing [o]
    does not disturb a later subscription of another observer. *)
Theorem subscribe_unsubscribe_laws (o o' : loc) :
  (forall stream : Subject,
      occurrences o (observers (subscribe stream o))
      = S (occurrences o (observers stream))
      /\ (o ∉ observers (unsubscribe (subscribe stream o) o))
      /\ unsubscribe (subscribe stream o) o = unsubscribe stream o
      /\ (unsubscribe (subscribe stream o) o = stream
          <-> o ∉ observers stream)
      /\ unsubscribe (unsubscribe stream o) o = unsubscribe stream o
      /\ unsubscribe (unsubscribe stream o) o'
         = unsubscribe (unsubscribe stream o') o
      /\ (o <> o' ->
          unsubscribe (subscribe stream o') o
          = subscribe (unsubscribe stream o) o'))
  /\ (forall publisher : News.NewsPublisher,
      occurrences o (News.subscribers (News.subscribe publisher o))
      = S (occurrences o (News.subscribers publisher))
      /\ (o ∉ News.subscribers
                 (News.unsubscribe (News.subscribe publisher o) o))
      /\ News.unsubscribe (News.subscribe publisher o) o
         = News.unsubscribe publisher o
      /\ (News.unsubscribe (News.subscribe publisher o) o = publisher
          <-> o ∉ News.subscribers publisher)
      /\ News.unsubscribe (News.unsubscribe publisher o) o
         = News.unsubscribe publisher o
      /\ News.unsubscribe (News.unsubscribe publisher o) o'
         = News.unsubscribe (News.unsubscribe publisher o') o
      /\ (o <> o' ->
          News.unsubscribe (News.subscribe publisher o') o
          = News.subscribe (News.unsubscribe publisher o) o')).
Proof.
  split.
  - intros [l]. unfold unsubscribe, subscribe. cbn.
    split; [apply occurrences_snoc|].
    split; [apply filter_ne_not_elem_of|].
    split; [by rewrite filter_ne_app_same|].
    split; [split|].
    + intros [= Hback]. rewrite <- Hback. apply filter_ne_not_elem_of.
    + intros Hnot. by rewrite filter_ne_app_same, filter_ne_absent.
    + split; [by rewrite filter_ne_idemp|].
      split; [by rewrite filter_ne_comm|].
      intros Hne. by rewrite filter_ne_app_other.
  - intros [l news]. unfold News.unsubscribe, News.subscribe. cbn.
    split; [apply occurrences_snoc|].
    split; [apply filter_ne_not_elem_of|].
    split; [by rewrite filter_ne_app_same|].
    split; [split|].
    + intros [= Hback]. rewrite <- Hback. apply filter_ne_not_elem_of.
    + intros Hnot. by rewrite filter_ne_app_same, filter_ne_absent.
    + split; [by rewrite filter_ne_idemp|].
      split; [by rewrite filter_ne_comm|].
      intros Hne. by rewrite filter_ne_app_other.
Qed.

Lemma subscribe_unsubscribe_laws_witness :
  let obs1 : loc := 1%positive in
  let obs2 : loc := 2%positive in
  let stream := subscribe new_Subject obs1 in
  unsubscribe (subscribe stream obs2) obs2 = stream
  /\ unsubscribe (subscribe stream obs1) obs1 <> stream
  /\ unsubscribe (subscribe stream obs2) obs1
     = subscribe (unsubscribe stream obs1) obs2.
Proof.
  intros obs1 obs2 stream.
  destruct (proj1 (subscribe_unsubscribe_laws obs2 obs1) stream)
    as (_ & _ & _ & Hback & _).
  destruct (proj1 (subscribe_unsubscribe_laws obs1 obs2) stream)
    as (_ & _ & _ & Hkept & _ & _ & Hother).
  split; [|split].
  - apply Hback. apply (bool_decide_unpack _). vm_compute. exact I.
  - intros Heq. apply Hkept in Heq. apply Heq. unfold stream. cbn. left.
  - apply Hother. discriminate.
Defined.

(** Subscribing twice and unsubscribing once leaves no subscription. *)
Lemma unsubscribe_drops_all_copies (stream : Subject) (o : loc) :
  occurrences o (observers (unsubscribe (subscribe (subscribe stream o) o) o))
  = 0.
Proof.
  destruct (occurrences o _) eqn:Hocc; [reflexivity|]. exfalso.
  apply (filter_ne_not_elem_of o
           (observers (subscribe (subscribe stream o) o))).
  apply occurrences_elem_of. unfold unsubscribe in Hocc. cbn in Hocc.
  cbn. lia.
Qed.

Lemma occurrences_cons (o x : loc) (l : list loc) :
  occurrences o (x :: l)
  = (if decide (x = o) then 1 else 0) + occurrences o l.
Proof.
  unfold occurrences. rewrite filter_cons. by destruct (decide (x = o)).
Qed.

Lemma forEach_update_heap (l : list loc) (a : action) (w : world) :
  Forall (fun o => is_Some (heap w !! o)) l ->
  forall o,
    heap (forEach l (fun o' => update o' a) w).2 !! o
    = Nat.iter (occurrences o l) (fun this => Observer_update this a)
        <$> heap w !! o.
Proof.
  revert w. induction l as [|x l IH]; intros w Hall o.
  - cbn. by destruct (heap w !! o).
  - apply Forall_cons in Hall as [[this Hthis] Hall].
    set (w1 := {| heap := <[x := Observer_update this a]> (heap w);
                  calls := calls w ++ [(x, a)] |}).
    assert (Hall1 : Forall (fun o' => is_Some (heap w1 !! o')) l).
    { eapply Forall_impl; [exact Hall|]. intros y Hy. cbn.
      rewrite lookup_insert. case_decide; [eauto | exact Hy]. }
    cbn [forEach]. unfold bind. rewrite (update_alive x a w this Hthis).
    fold w1. rewrite (IH w1 Hall1 o), occurrences_cons. cbn [heap w1].
    rewrite lookup_insert. destruct (decide (x = o)) as [->|Hne].
    + rewrite Hthis. cbn [fmap option_fmap option_map].
      f_equal. change (1 + occurrences o l) with (S (occurrences o l)).
      by rewrite Nat.iter_succ_r.
    + reflexivity.
Qed.

(** X6. What [fire] does to the observers: every observer's state is
    advanced by [update] once for each of its subscriptions, so an
    observer subscribed once receives exactly one [update], and an
    object that is not subscribed is left as it was. *)
Theorem fire_updates_states (stream : Subject) (a : action) (w : world) :
  subscribed_alive stream w ->
  let w' := (fire stream a w).2 in
  (forall o,
      heap w' !! o
      = Nat.iter (occurrences o (observers stream))
          (fun this => Observer_update this a) <$> heap w !! o)
  /\ (forall o, o ∉ observers stream -> heap w' !! o = heap w !! o)
  /\ (forall o, occurrences o (observers stream) = 1 ->
        heap w' !! o = (fun this => Observer_update this a) <$> heap w !! o).
Proof.
  intros Halive w'.
  pose proof (forEach_update_heap (observers stream) a w Halive) as Hheap.
  split; [exact Hheap|]. split.
  - intros o Hnot. unfold w', fire. rewrite Hheap.
    assert (Hzero : occurrences o (observers stream) = 0).
    { destruct (occurrences o (observers stream)) eqn:Hocc; [done|].
      exfalso. apply Hnot, occurrences_elem_of. lia. }
    rewrite Hzero. cbn. by destruct (heap w !! o).
  - intros o Hone. unfold w', fire. rewrite Hheap, Hone. reflexivity.
Qed.

Lemma fire_updates_states_witness :
  let obs1 : loc := 1%positive in
  let obs2 : loc := 2%positive in
  let plus := {| type := "PLUS"; value := None |} in
  let stream := subscribe new_Subject obs1 in
  let w := {| heap := {[ obs1 := new_Observer None;
                         obs2 := new_Observer (Some (of_Z 10)) ]};
              calls := [] |} in
  state <$> heap (fire stream plus w).2 !! obs1 = Some (of_Z 2)
  /\ state <$> heap (fire stream plus w).2 !! obs2 = Some (of_Z 10).
Proof.
  intros obs1 obs2 plus stream w.
  destruct (fire_updates_states stream plus w) as (_ & Hframe & Honce).
  { apply (bool_decide_unpack _). vm_compute. exact I. }
  split.
  - rewrite (Honce obs1); [|reflexivity]. vm_compute. reflexivity.
  - rewrite (Hframe obs2); [vm_compute; reflexivity|].
    apply (bool_decide_unpack _). vm_compute. exact I.
Defined.

End SubscriptionFacts.

(** ** Reactive state *)

Section ReactiveFacts.
Import JS Reactive.
Context {V callback W : Type}.
Variable invoke : callback -> V -> M (world V callback W) unit.

Lemma quiet_callbacks_keep (this array : loc) (v : V) (l : list callback)
    (w : world V callback W) :
  Forall (leaves_state_alone invoke this array) l ->
  heap (foldl (fun w0 cb => (invoke cb v w0).2) w l) !! this = heap w !! this
  /\ heap (foldl (fun w0 cb => (invoke cb v w0).2) w l) !! array
     = heap w !! array.
Proof.
  revert w. induction l as [|x l IH]; intros w Hall; [done|].
  apply Forall_cons in Hall as [Hx Hall]. cbn [foldl].
  destruct (IH (invoke x v w).2 Hall) as [-> ->]. apply Hx.
Qed.

Lemma forEach_from_all_normal (this array : loc) (v : V)
    (cbs : list callback) (rest visited : list callback)
    (w : world V callback W) :
  cbs = visited ++ rest ->
  heap w !! this = Some (ReactiveState v array) ->
  heap w !! array = Some (Array cbs) ->
  Forall (leaves_state_alone invoke this array) rest ->
  Forall (fun cb => forall w0, (invoke cb v w0).1 = Normal tt) rest ->
  forEach_from invoke this array (length visited) (length rest) w
  = (Normal tt, foldl (fun w0 cb => (invoke cb v w0).2) w rest).
Proof.
  revert visited w.
  induction rest as [|x rest IH]; intros visited w Hcbs Hthis Harr Hq Hn;
    [reflexivity|].
  apply Forall_cons in Hq as [Hqx Hq]. apply Forall_cons in Hn as [Hnx Hn].
  cbn [length forEach_from foldl]. rewrite Harr.
  assert (Hk : cbs !! length visited = Some x)
    by (rewrite Hcbs; by apply list_lookup_middle).
  rewrite Hk. unfold bind, this_value. rewrite Hthis.
  specialize (Hnx w). destruct (Hqx v w) as [Hkept_this Hkept_arr].
  destruct (invoke x v w) as [c w1]. cbn in Hnx, Hkept_this, Hkept_arr.
  subst c. cbn [snd].
  replace (S (length visited)) with (length (visited ++ [x]))
    by (rewrite length_app; cbn; lia).
  apply IH; [by rewrite <- app_assoc | congruence | congruence | done | done].
Qed.

Lemma forEach_from_first_throw (this array : loc) (v : V)
    (cbs : list callback) (pre post visited : list callback) (cb : callback)
    (w w2 : world V callback W) (e : error) :
  cbs = visited ++ pre ++ cb :: post ->
  heap w !! this = Some (ReactiveState v array) ->
  heap w !! array = Some (Array cbs) ->
  Forall (leaves_state_alone invoke this array) pre ->
  Forall (fun cb' => forall w0, (invoke cb' v w0).1 = Normal tt) pre ->
  invoke cb v (foldl (fun w0 cb' => (invoke cb' v w0).2) w pre) = (Throw e, w2) ->
  forEach_from invoke this array (length visited)
    (length (pre ++ cb :: post)) w
  = (Throw e, w2).
Proof.
  revert visited w.
  induction pre as [|x pre IH]; intros visited w Hcbs Hthis Harr Hq Hn Hcb.
  - cbn [app length forEach_from foldl] in *. rewrite Harr.
    assert (Hk : cbs !! length visited = Some cb)
      by (rewrite Hcbs; by apply list_lookup_middle).
    rewrite Hk. unfold bind, this_value. by rewrite Hthis, Hcb.
  - apply Forall_cons in Hq as [Hqx Hq]. apply Forall_cons in Hn as [Hnx Hn].
    cbn [app length forEach_from foldl] in *. rewrite Harr.
    assert (Hk : cbs !! length visited = Some x)
      by (rewrite Hcbs; by apply list_lookup_middle).
    rewrite Hk. unfold bind, this_value. rewrite Hthis.
    specialize (Hnx w). destruct (Hqx v w) as [Hkept_this Hkept_arr].
    destruct (invoke x v w) as [c w1]. cbn in Hnx, Hkept_this, Hkept_arr, Hcb.
    subst c.
    replace (S (length visited)) with (length (visited ++ [x]))
      by (rewrite length_app; cbn; lia).
    apply IH;
      [by rewrite <- app_assoc | congruence | congruence | done | done | done].
Qed.


End ReactiveFacts.


(** Callbacks that do reach the state object: the first writes
    [_value], so the next one is called with what it wrote; the last
    subscribes another callback, which is not called in the round in
    which it was added, and is called in the next one. *)
Example callbacks_reach_state :
  let state : JS.loc := 1%positive in
  let invoke : string -> nat
               -> JS.M (Reactive.world nat string (list (string * nat))) unit :=
    fun tag v w =>
      if String.eqb tag "reset" then
        (JS.Normal tt,
         {| Reactive.heap :=
              <[state := Reactive.ReactiveState 0 2%positive]>
                (Reactive.heap w);
            Reactive.outside := Reactive.outside w |})
      else if String.eqb tag "more" then Reactive.subscribe state "late" w
      else
        (JS.Normal tt,
         {| Reactive.heap := Reactive.heap w;
            Reactive.outside := Reactive.outside w ++ [(tag, v)] |}) in
  let empty : Reactive.world nat string (list (string * nat)) :=
    {| Reactive.heap := ∅; Reactive.outside := [] |} in
  let once :=
    ((s <- Reactive.new_ReactiveState 5 ;;
      Reactive.subscribe s "reset" ;; Reactive.subscribe s "seen" ;;
      Reactive.subscribe s "more" ;;
      Reactive.set_value invoke s 10)%js empty).2 in
  let twice := (Reactive.set_value invoke state 20 once).2 in
  Reactive.outside once = [("seen", 0)]
  /\ (Reactive.value state once).1 = JS.Normal 0
  /\ Reactive.heap once !! 2%positive
     = Some (Reactive.Array ["reset"; "seen"; "more"; "late"])
  /\ Reactive.outside twice = [("seen", 0); ("seen", 0); ("late", 0)].
Proof. vm_compute. repeat split. Qed.

(** ** The request builder *)

Section BuilderFacts.
Import JS Builder.
Context {body_t : Type}.

Lemma setHeader_spec (this : loc) (b : RequestBuilder body_t)
    (props : gmap string string) (key value : string) (s : store body_t) :
  builders s !! this = Some b ->
  dictionaries s !! headers b = Some props ->
  setHeader this key value s
  = (Normal this,
     {| builders := builders s;
        dictionaries :=
          <[headers b := if String.eqb key "__proto__" then props
                         else <[key := value]> props]> (dictionaries s) |}).
Proof.
  intros Hb Hd. unfold setHeader, bind, receiver, get. rewrite Hb. cbn.
  by rewrite Hd.
Qed.

Lemma build_spec (this : loc) (b : RequestBuilder body_t) (s : store body_t) :
  builders s !! this = Some b ->
  build this s
  = (Normal {| r_method := method b; r_url := url b;
               r_headers := headers b; r_body := body b |}, s).
Proof. intros Hb. unfold build, bind, receiver. by rewrite Hb. Qed.

Lemma setMethod_spec (this : loc) (b : RequestBuilder body_t) (m : string)
    (s : store body_t) :
  builders s !! this = Some b ->
  setMethod this m s
  = (Normal this,
     {| builders :=
          <[this := {| method := m; url := url b; headers := headers b;
                       body := body b |}]> (builders s);
        dictionaries := dictionaries s |}).
Proof. intros Hb. unfold setMethod, bind, receiver. by rewrite Hb. Qed.

(** X8. Headers round-trip through the builder: after
    [setHeader(key, value)] the built request has [value] under [key]
    and every other header as before; the one exception is the key
    ["__proto__"], which a string value never sets, so the headers stay
    as they were. *)
Theorem setHeader_build_roundtrip (this : loc) (b : RequestBuilder body_t)
    (s : store body_t) (key value : string) :
  builder_at this b s ->
  exists r s',
    (_ <- setHeader this key value ;; build this)%js s = (Normal r, s')
    /\ r_method r = method b /\ r_url r = url b /\ r_body r = body b
    /\ (key <> "__proto__" -> own_header r key s' = Some value)
    /\ (forall k, k <> key ->
          own_header r k s' = dictionaries s !! headers b ≫= (.!! k))
    /\ (key = "__proto__" ->
          forall k, own_header r k s'
                    = dictionaries s !! headers b ≫= (.!! k)).
Proof.
  intros [Hb [props Hd]].
  eexists _, _. split.
  { unfold bind at 1. rewrite (setHeader_spec this b props key value s Hb Hd).
    apply build_spec. exact Hb. }
  cbn. split; [reflexivity|]. split; [reflexivity|]. split; [reflexivity|].
  unfold own_header. cbn. rewrite lookup_insert_eq, Hd. cbn.
  split; [|split].
  - intros Hne. rewrite (proj2 (String.eqb_neq _ _) Hne).
    apply lookup_insert_eq.
  - intros k Hk. destruct (String.eqb key "__proto__"); [reflexivity|].
    by rewrite lookup_insert_ne.
  - intros -> k. reflexivity.
Qed.

(** X9. [build()] hands out the builder's own header dictionary, not a
    copy: a header set on the builder after [build()] shows up in the
    request built before, and a request built later shares the same
    dictionary; the method, stored by value, does not follow. *)
Theorem build_shares_headers (this : loc) (b : RequestBuilder body_t)
    (s : store body_t) (key value m : string) :
  builder_at this b s ->
  key <> "__proto__" ->
  exists r1 r2 s',
    (r1 <- build this ;;
     _ <- setHeader this key value ;;
     _ <- setMethod this m ;;
     r2 <- build this ;;
     ret (r1, r2))%js s = (Normal (r1, r2), s')
    /\ own_header r1 key s' = Some value
    /\ r_headers r2 = r_headers r1
    /\ r_method r1 = method b
    /\ r_method r2 = m.
Proof.
  intros [Hb [props Hd]] Hne.
  eexists _, _, _. split.
  { unfold bind at 1. rewrite (build_spec this b s Hb).
    unfold bind at 1.
    rewrite (setHeader_spec this b props key value s Hb Hd).
    unfold bind at 1. erewrite setMethod_spec by exact Hb.
    unfold bind at 1. erewrite build_spec by apply lookup_insert_eq.
    reflexivity. }
  cbn. split; [|done].
  unfold own_header. cbn. rewrite lookup_insert_eq. cbn.
  rewrite (proj2 (String.eqb_neq _ _) Hne). apply lookup_insert_eq.
Qed.

End BuilderFacts.

Lemma setHeader_build_roundtrip_witness :
  let b : JS.loc := 1%positive in
  let s := (Builder.new_RequestBuilder (body_t := nat) Builder.start).2 in
  exists r s',
    (_ <- Builder.setHeader b "Content-Type" "application/json" ;;
     Builder.build b)%js s = (JS.Normal r, s')
    /\ Builder.own_header r "Content-Type" s' = Some "application/json"
    /\ Builder.own_header r "Accept" s' = None.
Proof.
  intros b s.
  destruct (setHeader_build_roundtrip b
              {| Builder.method := "GET"; Builder.url := "";
                 Builder.headers := 1%positive; Builder.body := None |}
              s "Content-Type" "application/json")
    as (r & s' & Hrun & _ & _ & _ & Hkey & Hothers & _).
  { split; [reflexivity | by eexists]. }
  exists r, s'. split; [exact Hrun|]. split.
  - apply Hkey. discriminate.
  - rewrite (Hothers "Accept"); [reflexivity | discriminate].
Defined.

Lemma build_shares_headers_witness :
  let b : JS.loc := 1%positive in
  let s := (Builder.new_RequestBuilder (body_t := nat) Builder.start).2 in
  exists r1 r2 s',
    (r1 <- Builder.build b ;;
     _ <- Builder.setHeader b "Accept" "text/html" ;;
     _ <- Builder.setMethod b "POST" ;;
     r2 <- Builder.build b ;;
     JS.ret (r1, r2))%js s = (JS.Normal (r1, r2), s')
    /\ Builder.own_header r1 "Accept" s' = Some "text/html"
    /\ Builder.r_method r1 = "GET"
    /\ Builder.r_method r2 = "POST".
Proof.
  intros b s.
  destruct (build_shares_headers b
              {| Builder.method := "GET"; Builder.url := "";
                 Builder.headers := 1%positive; Builder.body := None |}
              s "Accept" "text/html" "POST")
    as (r1 & r2 & s' & Hrun & Hh & _ & Hm1 & Hm2).
  { split; [reflexivity | by eexists]. }
  { discriminate. }
  exists r1, r2, s'. done.
Defined.

(** ** The shopping cart *)

Section CartFacts.
Import JS Cart.

Lemma perform_all (steps : list step) (this : ShoppingCart) :
  _amount (foldl perform this steps)
  = foldl add (_amount this) (prices steps)
  /\ _paymentStrategy (foldl perform this steps)
     = last (_paymentStrategy this :: (Some <$> strategies steps))
         ≫= id.
Proof.
  revert this. induction steps as [|[price|strategy] steps IH]; intros this.
  - split; reflexivity.
  - destruct (IH (addItem this price)) as [Hamount Hstrategy].
    cbn [foldl perform]. rewrite Hamount, Hstrategy. split; [reflexivity|].
    unfold strategies. cbn. by rewrite !last_cons.
  - destruct (IH (setPaymentStrategy this strategy)) as [Hamount Hstrategy].
    cbn [foldl perform]. rewrite Hamount, Hstrategy. split; [reflexivity|].
    unfold strategies. cbn. rewrite !last_cons.
    by destruct (last (Some <$> omap _ steps)).
Qed.

(** X10. What [checkout] charges depends only on the items added and
    on the last strategy chosen, not on how the two kinds of calls were
    interleaved: with no strategy chosen it throws the "not chosen"
    error and prints nothing, however many items were added; otherwise
    it pays, through the strategy chosen last, the prices summed in the
    order they were added, starting from [0]. *)
Theorem checkout_after (steps : list step) (c : console) :
  let cart := foldl perform new_ShoppingCart steps in
  (strategies steps = [] ->
     checkout cart c = (Throw (Error "Стратегия оплаты не выбрана"), c))
  /\ (forall chosen, last (strategies steps) = Some chosen ->
        checkout cart c
        = Strategy.pay chosen (foldl add (of_Z 0) (prices steps)) c).
Proof.
  intros cart. destruct (perform_all steps new_ShoppingCart) as [Ha Hs].
  fold cart in Ha, Hs. unfold checkout. rewrite Hs, Ha. cbn [_amount _paymentStrategy new_ShoppingCart].
  split.
  - intros ->. reflexivity.
  - intros chosen Hlast. rewrite last_cons, fmap_last, Hlast. reflexivity.
Qed.

End CartFacts.

Lemma checkout_after_witness :
  let card := [Strategy.CreditCardPayment (fun _ => "1500")] in
  Cart.checkout
    (foldl Cart.perform Cart.new_ShoppingCart
       [Cart.AddItem (JS.of_Z 1000); Cart.AddItem (JS.of_Z 500)]) []
  = (JS.Throw (JS.Error "Стратегия оплаты не выбрана"), [])
  /\ Cart.checkout
       (foldl Cart.perform Cart.new_ShoppingCart
          [Cart.AddItem (JS.of_Z 1000);
           Cart.SetPaymentStrategy Strategy.new_PaymentStrategy;
           Cart.AddItem (JS.of_Z 500);
           Cart.SetPaymentStrategy card]) []
     = (JS.Normal tt, ["Оплата 1500 руб. кредитной картой"]).
Proof.
  intros card. split.
  - apply (proj1 (checkout_after
                    [Cart.AddItem (JS.of_Z 1000); Cart.AddItem (JS.of_Z 500)]
                    [])).
    reflexivity.
  - rewrite (proj2 (checkout_after
                      [Cart.AddItem (JS.of_Z 1000);
                       Cart.SetPaymentStrategy Strategy.new_PaymentStrategy;
                       Cart.AddItem (JS.of_Z 500);
                       Cart.SetPaymentStrategy card] []) card);
      reflexivity.
Defined.

(** ** The cache service *)

Section CacheServiceFacts.
Import JS CacheService.
Context {value : Type}.

Lemma getInstance_ready (w : world value) :
  well_formed w ->
  exists l map entries w1,
    getInstance w = (Normal (Some l), w1)
    /\ instance w1 = Some l
    /\ heap w1 !! l = Some (Service (Some map))
    /\ heap w1 !! map = Some (MapObject entries)
    /\ (instance w = None -> entries = ∅)
    /\ (instance w <> None -> w1 = w).
Proof.
  unfold well_formed. intros Hwf.
  destruct (instance w) as [l|] eqn:Hinst.
  - destruct Hwf as (map & entries & Hl & Hmap).
    exists l, map, entries, w.
    unfold getInstance, bind, get. rewrite Hinst. cbn. rewrite Hinst.
    by repeat split.
  - set (l := fresh (dom (heap w))).
    set (map := fresh (dom (<[l := Service None]> (heap w)))).
    assert (Hne : map <> l).
    { intros Heq. apply (is_fresh (dom (<[l := Service None]> (heap w)))).
      fold map. rewrite Heq, dom_insert_L. set_solver. }
    exists l, map, ∅. eexists.
    unfold getInstance, bind, get. rewrite Hinst.
    split; [reflexivity|]. cbn.
    split; [reflexivity|]. split; [apply lookup_insert_eq|].
    split; [|done].
    rewrite lookup_insert_ne by (intros Heq; by apply Hne).
    apply lookup_insert_eq.
Qed.

Lemma cache_of_ready (w : world value) (l map : loc)
    (entries : gmap string value) :
  heap w !! l = Some (Service (Some map)) ->
  heap w !! map = Some (MapObject entries) ->
  cache_of l w = (Normal (map, entries), w).
Proof.
  intros Hl Hmap. unfold cache_of, bind, deref. rewrite Hl. cbn.
  by rewrite Hmap.
Qed.

Lemma get_key_ready (w : world value) (l map : loc)
    (entries : gmap string value) (k : string) :
  heap w !! l = Some (Service (Some map)) ->
  heap w !! map = Some (MapObject entries) ->
  get_key l k w = (Normal (entries !! k), w).
Proof.
  intros Hl Hmap. unfold get_key, bind.
  by rewrite (cache_of_ready w l map entries Hl Hmap).
Qed.

Lemma set_ready (w : world value) (l map : loc)
    (entries : gmap string value) (k : string) (v : value) :
  heap w !! l = Some (Service (Some map)) ->
  heap w !! map = Some (MapObject entries) ->
  set l k v w
  = (Normal tt,
     {| instance := instance w;
        heap := <[map := MapObject (<[k := v]> entries)]> (heap w) |}).
Proof.
  intros Hl Hmap. unfold set, bind.
  by rewrite (cache_of_ready w l map entries Hl Hmap).
Qed.

(** X11. The cache is shared through the singleton: a value stored
    under a key through one [getInstance()] handle is what [get] returns
    for that key through another handle, whatever the cache held
    before; the other keys keep what they had, and in a fresh script a
    key never stored reads [undefined]. *)
Theorem cache_shared_between_handles (w : world value) (key : string)
    (v : value) :
  well_formed w ->
  let handles : M (world value) (loc * loc) :=
    (cache1 <- getInstance ;; cache2 <- getInstance ;;
     c1 <- on cache1 ;; c2 <- on cache2 ;; ret (c1, c2))%js in
  (forall k,
      ((h <- handles ;; set h.1 key v ;; get_key h.2 k)%js w).1
      = if decide (k = key) then Normal (Some v)
        else ((h <- handles ;; get_key h.2 k)%js w).1)
  /\ (instance w = None ->
      forall k, ((h <- handles ;; get_key h.2 k)%js w).1 = Normal None).
Proof.
  intros Hwf handles.
  destruct (getInstance_ready w Hwf)
    as (l & map & entries & w1 & Hget & Hinst & Hl & Hmap & Hempty & _).
  assert (Hwf1 : well_formed w1).
  { unfold well_formed. rewrite Hinst. by exists map, entries. }
  destruct (getInstance_ready w1 Hwf1)
    as (l' & map' & entries' & w2 & Hget2 & _ & _ & _ & _ & Hsame).
  assert (Hsome : instance w1 <> None) by (rewrite Hinst; discriminate).
  rewrite (Hsame Hsome) in Hget2.
  assert (Hl' : l' = l).
  { unfold getInstance, bind, get in Hget2. rewrite Hinst in Hget2.
    cbn in Hget2. unfold ret in Hget2. rewrite Hinst in Hget2.
    congruence. }
  subst l'. clear Hsame map' entries' w2.
  assert (Hhandles : handles w = (Normal (l, l), w1)).
  { unfold handles, bind. rewrite Hget, Hget2. reflexivity. }
  assert (Hne : map <> l).
  { intros Heq. rewrite Heq, Hl in Hmap. discriminate Hmap. }
  split.
  - intros k. unfold bind at 1. rewrite Hhandles. unfold bind at 1.
    cbn [fst snd]. rewrite (set_ready w1 l map entries key v Hl Hmap).
    erewrite get_key_ready;
      [| cbn; rewrite lookup_insert_ne by exact Hne; exact Hl
       | cbn; apply lookup_insert_eq ].
    cbn [fst]. rewrite lookup_insert. destruct (decide (key = k)) as [->|Hk].
    + by rewrite decide_True.
    + rewrite decide_False by congruence.
      unfold bind. rewrite Hhandles. cbn [fst snd].
      by rewrite (get_key_ready w1 l map entries k Hl Hmap).
  - intros Hnone k. unfold bind. rewrite Hhandles. cbn [fst snd].
    rewrite (get_key_ready w1 l map entries k Hl Hmap). cbn [fst].
    rewrite (Hempty Hnone). by rewrite lookup_empty.
Qed.

End CacheServiceFacts.

Lemma cache_shared_between_handles_witness :
  let handles : JS.M (CacheService.world nat) (JS.loc * JS.loc) :=
    (cache1 <- CacheService.getInstance ;;
     cache2 <- CacheService.getInstance ;;
     c1 <- CacheService.on cache1 ;; c2 <- CacheService.on cache2 ;;
     JS.ret (c1, c2))%js in
  ((h <- handles ;; CacheService.set h.1 "user" 7 ;;
    CacheService.get_key h.2 "user")%js CacheService.start).1
  = JS.Normal (Some 7)
  /\ ((h <- handles ;; CacheService.get_key h.2 "user")%js
        CacheService.start).1 = JS.Normal None.
Proof.
  intros handles.
  destruct (cache_shared_between_handles CacheService.start "user" 7 I)
    as [Hset Hfresh].
  split.
  - exact (Hset "user").
  - apply Hfresh. reflexivity.
Defined.

(** ** Numbers: the calculators and the rectangle adapter *)

Section NumberFacts.
Import JS Geometry.

Lemma number_add_comm (a b : number) : add a b = add b a.
Proof.
  unfold add, SFadd.
  destruct a as [sa|sa| |sa ma ea], b as [sb|sb| |sb mb eb];
    try reflexivity; try (destruct sa, sb; reflexivity).
  by rewrite (Z.min_comm ea eb), Z.add_comm.
Qed.

(** X12. Adding through either calculator does not depend on the
    order of the operands, [NaN], infinities and signed zeros
    included. *)
Theorem calculators_add_commutes (t1 t2 : number) :
  Adapter.OldCalc_operations Adapter.new_OldCalc t1 t2 "add"
  = Adapter.OldCalc_operations Adapter.new_OldCalc t2 t1 "add"
  /\ Adapter.NewCalc_add Adapter.new_NewCalc t1 t2
     = Adapter.NewCalc_add Adapter.new_NewCalc t2 t1
  /\ Adapter.CalcAdapter_operations Adapter.new_CalcAdapter t1 t2 "add"
     = Adapter.CalcAdapter_operations Adapter.new_CalcAdapter t2 t1 "add".
Proof.
  unfold Adapter.OldCalc_operations, Adapter.CalcAdapter_operations,
    Adapter.NewCalc_add. cbn.
  by rewrite (number_add_comm t1 t2).
Qed.

Lemma abs_binary_round (s : bool) (m : positive) (e : Z) :
  SFabs (binary_round prec emax s m e)
  = SFabs (binary_round prec emax false m e).
Proof.
  unfold binary_round, binary_round_aux.
  destruct (shl_align _ _ _) as [mz ez].
  destruct (shr_fexp _ _ _ _ _) as [mrs e'].
  destruct (shr_fexp _ _ _ _ _) as [mrs' e''].
  destruct (shr_m mrs'); [reflexivity| |reflexivity].
  by destruct (_ <=? _)%Z.
Qed.

Lemma abs_binary_normalize_opp (m e : Z) :
  SFabs (binary_normalize prec emax (- m) e false)
  = SFabs (binary_normalize prec emax m e false).
Proof.
  destruct m as [|p|p]; [reflexivity| |].
  - change (- Z.pos p)%Z with (Z.neg p). unfold binary_normalize.
    apply abs_binary_round.
  - change (- Z.neg p)%Z with (Z.pos p). unfold binary_normalize.
    symmetry. apply abs_binary_round.
Qed.

Lemma abs_sub_swap (a b : number) :
  Math_abs (sub a b) = Math_abs (sub b a).
Proof.
  unfold Math_abs, sub, SFsub.
  destruct a as [sa|sa| |sa ma ea], b as [sb|sb| |sb mb eb];
    try reflexivity; try (destruct sa, sb; reflexivity).
  rewrite (Z.min_comm eb ea).
  rewrite <- abs_binary_normalize_opp. f_equal. f_equal. lia.
Qed.

Lemma compare_swap (a b : number) :
  SFcompare b a = CompOpp <$> SFcompare a b.
Proof.
  destruct a as [sa|sa| |sa ma ea], b as [sb|sb| |sb mb eb];
    try reflexivity; try (destruct sa, sb; reflexivity);
    try (destruct sa; reflexivity); try (destruct sb; reflexivity).
  pose proof (Pos.compare_cont_antisym ma mb Eq) as Hm. cbn in Hm.
  cbn. destruct sa, sb; try reflexivity;
    rewrite (Z.compare_antisym ea eb);
    destruct (ea ?= eb)%Z; cbn; try reflexivity;
    rewrite <- Hm; by destruct (Pos.compare_cont Eq ma mb).
Qed.

Lemma compare_Eq (a b : number) :
  SFcompare a b = Some Eq ->
  a = b \/ exists sa sb, a = S754_zero sa /\ b = S754_zero sb.
Proof.
  destruct a as [sa|sa| |sa ma ea], b as [sb|sb| |sb mb eb]; cbn;
    try discriminate; try (destruct sa; discriminate);
    try (destruct sb; discriminate).
  - right. eauto.
  - destruct sa, sb; try discriminate; by left.
  - destruct sa, sb; try discriminate;
      destruct (ea ?= eb)%Z eqn:He; try discriminate;
      apply Z.compare_eq in He; subst eb; intros [= Hm]; left;
      [apply (f_equal CompOpp) in Hm; cbn in Hm;
       rewrite CompOpp_involutive in Hm|];
      apply Pos.compare_eq in Hm; by subst.
Qed.

Lemma Math_min_comm (a b : number) : Math_min a b = Math_min b a.
Proof.
  unfold Math_min. rewrite (orb_comm (is_nan b)).
  destruct (is_nan a || is_nan b) eqn:Hnan; [reflexivity|].
  apply orb_false_elim in Hnan as [Ha Hb].
  unfold lt, SFltb. rewrite (compare_swap a b).
  destruct (SFcompare a b) as [[| |]|] eqn:Hc; cbn.
  - destruct (compare_Eq a b Hc) as [->|(sa & sb & -> & ->)].
    + by destruct b as [[|]| | |].
    + by destruct sa, sb.
  - destruct a as [[|]| | |], b as [[|]| | |]; try reflexivity;
      discriminate.
  - destruct a as [[|]| | |], b as [[|]| | |]; try reflexivity;
      discriminate.
  - destruct a, b; try discriminate; cbn in Hc; discriminate.
Qed.

(** X13. What [draw] prints does not depend on which of the two
    opposite corners comes first, nor on which diagonal is given: all
    four ways of naming the same rectangle by two opposite corners
    print the same line. *)
Theorem draw_corner_order (to_string : number -> string)
    (this : RectangleAdapter) (x1 y1 x2 y2 : number) :
  draw to_string this x2 y2 x1 y1 = draw to_string this x1 y1 x2 y2
  /\ draw to_string this x2 y1 x1 y2 = draw to_string this x1 y1 x2 y2
  /\ draw to_string this x1 y2 x2 y1 = draw to_string this x1 y1 x2 y2.
Proof.
  unfold draw.
  rewrite (Math_min_comm x2 x1), (Math_min_comm y2 y1),
    (abs_sub_swap x1 x2), (abs_sub_swap y1 y2).
  split; [reflexivity|]. split; reflexivity.
Qed.

End NumberFacts.

(** ** Coffee decorators *)

Section CoffeeFacts.
Import JS CoffeeShop.

Lemma coffee_alloc_fresh (o : object) (h : gmap loc object) :
  exists l, alloc o h = (Normal l, <[l := o]> h) /\ h !! l = None.
Proof.
  exists (fresh (dom h)). split; [reflexivity|].
  apply not_elem_of_dom, is_fresh.
Qed.

Lemma cost_insert (stack : nat) (this l : loc) (o : object) (c : number)
    (h : gmap loc object) :
  h !! l = None ->
  cost stack this h = (Normal c, h) ->
  cost stack this (<[l := o]> h) = (Normal c, <[l := o]> h).
Proof.
  intros Hfresh. revert this c.
  induction stack as [|stack IH]; intros this c; [discriminate|].
  cbn [cost]. unfold bind, deref.
  destruct (h !! this) as [obj|] eqn:Hthis; [|discriminate].
  assert (Hne : l <> this) by congruence.
  rewrite lookup_insert_ne, Hthis by exact Hne.
  destruct obj as [|class coffee]; [by intros [= <-]|].
  destruct class; cbn; unfold bind;
    destruct (cost stack coffee h) as [[inner|e] h'] eqn:Hinner;
    try discriminate; intros [= <- ->];
    rewrite (IH coffee _ Hinner) + rewrite (IH coffee _ eq_refl);
    reflexivity.
Qed.

Lemma description_insert (stack : nat) (this l : loc) (o : object)
    (d : string) (h : gmap loc object) :
  h !! l = None ->
  description stack this h = (Normal d, h) ->
  description stack this (<[l := o]> h) = (Normal d, <[l := o]> h).
Proof.
  intros Hfresh. revert this d.
  induction stack as [|stack IH]; intros this d; [discriminate|].
  cbn [description]. unfold bind, deref.
  destruct (h !! this) as [obj|] eqn:Hthis; [|discriminate].
  assert (Hne : l <> this) by congruence.
  rewrite lookup_insert_ne, Hthis by exact Hne.
  destruct obj as [|class coffee]; [by intros [= <-]|].
  destruct class; cbn; unfold bind;
    destruct (description stack coffee h) as [[inner|e] h'] eqn:Hinner;
    try discriminate; intros [= <- ->];
    rewrite (IH coffee _ Hinner) + rewrite (IH coffee _ eq_refl);
    reflexivity.
Qed.

Lemma wrapper_step (stack : nat) (l coffee : loc) (class : decorator)
    (c : number) (d : string) (h : gmap loc object) :
  h !! l = Some (Wrapper class coffee) ->
  cost stack coffee h = (Normal c, h) ->
  description stack coffee h = (Normal d, h) ->
  cost (S stack) l h = (Normal (priced class c), h)
  /\ description (S stack) l h = (Normal (described class d), h).
Proof.
  intros Hl Hc Hd. cbn [cost description]. unfold bind, deref. rewrite Hl.
  destruct class; cbn; unfold bind; rewrite ?Hc, ?Hd; done.
Qed.

Lemma wrap_coffee (classes : list decorator) (component : loc)
    (c : number) (d : string) (stack : nat) (h : gmap loc object) :
  cost (S stack) component h = (Normal c, h) ->
  description (S stack) component h = (Normal d, h) ->
  exists top h',
    wrap classes component h = (Normal top, h')
    /\ cost (length classes + S stack) top h'
       = (Normal (foldl (fun c class => priced class c) c classes), h')
    /\ description (length classes + S stack) top h'
       = (Normal (foldl (fun d class => described class d) d classes), h').
Proof.
  revert component c d stack h.
  induction classes as [|class rest IH]; intros component c d stack h Hc Hd.
  - exists component, h. done.
  - destruct (coffee_alloc_fresh (Wrapper class component) h)
      as (l & Hl & Hfresh).
    set (h1 := <[l := Wrapper class component]> h) in *.
    destruct (wrapper_step (S stack) l component class c d h1)
      as [Hc1 Hd1];
      [apply lookup_insert_eq | by apply cost_insert
       | by apply description_insert |].
    destruct (IH l _ _ (S stack) h1 Hc1 Hd1) as (top & h' & Hw & Hc' & Hd').
    exists top, h'. split; [|split].
    + cbn [wrap]. unfold bind, new_decorator. rewrite Hl. exact Hw.
    + cbn [length foldl]. replace (S (length rest) + S stack)
        with (length rest + S (S stack)) by lia. exact Hc'.
    + cbn [length foldl]. replace (S (length rest) + S stack)
        with (length rest + S (S stack)) by lia. exact Hd'.
Qed.

(** X14. Coffee decorators compose to any depth: for a coffee wrapped
    in decorators of any classes, in any number, the description is
    ['Simple coffee'] followed by each decorator's ingredient in the
    order of wrapping, and the cost is [5] with each decorator's price
    added in that order (the plain [CoffeeDecorator] adds nothing),
    provided the stack allows one activation per object. *)
Theorem order_description_and_cost (classes : list decorator) (stack : nat)
    (h : gmap loc object) :
  length classes < stack ->
  (order stack classes h).1
  = Normal (foldl (fun d class => described class d) "Simple coffee" classes,
            foldl (fun c class => priced class c) (of_Z 5) classes).
Proof.
  intros Hstack.
  destruct (coffee_alloc_fresh Coffee h) as (coffee & Hcoffee & Hfresh).
  set (h1 := <[coffee := Coffee]> h) in *.
  assert (Hlook : h1 !! coffee = Some Coffee) by apply lookup_insert_eq.
  destruct (wrap_coffee classes coffee (of_Z 5) "Simple coffee"
              (stack - S (length classes)) h1)
    as (top & h' & Hw & Hc & Hd).
  { cbn [cost]. unfold bind, deref. by rewrite Hlook. }
  { cbn [description]. unfold bind, deref. by rewrite Hlook. }
  replace (length classes + S (stack - S (length classes)))
    with stack in Hc, Hd by lia.
  unfold order, bind, new_Coffee. rewrite Hcoffee, Hw, Hd, Hc. reflexivity.
Qed.

Lemma order_description_and_cost_witness :
  (order 4 [MilkDecorator; SugarDecorator; WhipDecorator] ∅).1
  = Normal ("Simple coffee, milk, sugar, whip", of_Z 11).
Proof.
  rewrite (order_description_and_cost
             [MilkDecorator; SugarDecorator; WhipDecorator] 4 ∅);
    [vm_compute; reflexivity | cbn; lia].
Defined.

End CoffeeFacts.

(** ** The house builder *)

Section HouseFacts.
Import JS HouseBuilder.

(** What a sequence of steps leaves of a house: each field is the
    wooden one if its step occurs, and the old one otherwise. *)
Lemma perform_fields (b : WoodenHouseBuilder) (steps : list step)
    (h : gmap loc House) (x : House) :
  h !! house b = Some x ->
  forEach steps (perform b) h
  = (Normal tt,
     <[house b :=
         {| walls := if bool_decide (Walls ∈ steps) then "деревянными"
                     else walls x;
            roof := if bool_decide (Roof ∈ steps) then "деревянной"
                    else roof x;
            windows := if bool_decide (Windows ∈ steps) then of_Z 4
                       else windows x;
            garage := if bool_decide (Garage ∈ steps) then true
                      else garage x |}]> h).
Proof.
  revert h x. induction steps as [|s steps IH]; intros h x Hx.
  - cbn. destruct x. by rewrite insert_id.
  - cbn [forEach]. unfold bind.
    assert (Hstep : exists x',
      perform b s h = (Normal tt, <[house b := x']> h)
      /\ walls x' = (if decide (s = Walls) then "деревянными" else walls x)
      /\ roof x' = (if decide (s = Roof) then "деревянной" else roof x)
      /\ windows x' = (if decide (s = Windows) then of_Z 4 else windows x)
      /\ garage x' = (if decide (s = Garage) then true else garage x)).
    { destruct s; cbn; unfold buildWalls, buildRoof, buildWindows,
        buildGarage, assign; rewrite Hx; eexists; split; try reflexivity;
        cbn; done. }
    destruct Hstep as (x' & Hrun & Hw & Hr & Hwin & Hg).
    rewrite Hrun, (IH _ x') by apply lookup_insert_eq.
    rewrite insert_insert_eq. f_equal. f_equal.
    rewrite Hw, Hr, Hwin, Hg.
    f_equal;
      match goal with
      | |- context [bool_decide (?k ∈ s :: steps)] =>
          destruct (decide (s = k)) as [->|Hne];
          [ rewrite (bool_decide_eq_true_2 (k ∈ k :: steps))
              by apply list_elem_of_here;
            by destruct (bool_decide (k ∈ steps))
          | destruct (bool_decide (k ∈ steps)) eqn:Hin;
            [ apply bool_decide_eq_true_1 in Hin;
              by rewrite bool_decide_eq_true_2
                by (by apply list_elem_of_further)
            | apply bool_decide_eq_false_1 in Hin;
              rewrite bool_decide_eq_false_2; [done|];
              intros [?|?]%elem_of_cons; congruence ] ]
      end.
Qed.

(** X15. The wooden house does not depend on the order of the
    building steps: any sequence of steps in which each of the four
    occurs, in whatever order and however often, turns the builder's
    house into the same wooden house, whatever it was before, and
    touches no other house.  The director's [construct] is one such
    sequence and returns the builder's own house, so constructing
    again returns the same object unchanged. *)
Theorem house_steps_any_order (b : WoodenHouseBuilder) (steps : list step)
    (h : gmap loc House) :
  is_Some (h !! house b) ->
  (Walls ∈ steps -> Roof ∈ steps -> Windows ∈ steps -> Garage ∈ steps ->
     forEach steps (perform b) h
     = (Normal tt, <[house b := wooden_house]> h))
  /\ construct b h = (Normal (house b), <[house b := wooden_house]> h)
  /\ (r <- construct b ;; construct b)%js h
     = (Normal (house b), <[house b := wooden_house]> h).
Proof.
  intros [x Hx].
  assert (Hall : forall steps h x,
            h !! house b = Some x ->
            Walls ∈ steps -> Roof ∈ steps -> Windows ∈ steps ->
            Garage ∈ steps ->
            forEach steps (perform b) h
            = (Normal tt, <[house b := wooden_house]> h)).
  { clear. intros steps h x Hx Hw Hr Hwin Hg.
    rewrite (perform_fields b steps h x Hx).
    by rewrite !bool_decide_eq_true_2. }
  assert (Hconstruct : forall h x,
            h !! house b = Some x ->
            construct b h = (Normal (house b), <[house b := wooden_house]> h)).
  { clear -Hall. intros h x Hx.
    assert (Hrun : forEach [Walls; Roof; Windows; Garage] (perform b) h
                   = (Normal tt, <[house b := wooden_house]> h))
      by (apply (Hall _ h x Hx); repeat constructor).
    cbn [forEach perform] in Hrun. unfold construct, getResult.
    unfold bind in *.
    destruct (buildWalls b h) as [[[]|e] h1]; [|by discriminate Hrun].
    destruct (buildRoof b h1) as [[[]|e] h2]; [|by discriminate Hrun].
    destruct (buildWindows b h2) as [[[]|e] h3]; [|by discriminate Hrun].
    destruct (buildGarage b h3) as [[[]|e] h4]; [|by discriminate Hrun].
    cbn in Hrun. unfold ret in *. congruence. }
  split; [by apply (Hall steps h x)|]. split; [by apply (Hconstruct h x)|].
  unfold bind. rewrite (Hconstruct h x Hx).
  rewrite (Hconstruct _ wooden_house) by apply lookup_insert_eq.
  by rewrite insert_insert_eq.
Qed.

Lemma house_steps_any_order_witness :
  let b := {| house := 1%positive |} in
  let h : gmap loc House := {[ 1%positive := new_House ]} in
  forEach [Garage; Windows; Garage; Roof; Walls] (perform b) h
  = (Normal tt, <[1%positive := wooden_house]> h).
Proof.
  intros b h.
  apply (proj1 (house_steps_any_order b
                  [Garage; Windows; Garage; Roof; Walls] h
                  ltac:(by eexists)));
    apply (bool_decide_unpack _); vm_compute; exact I.
Defined.

End HouseFacts.

(** The house the director builds reads as in the write-up. *)
Lemma wooden_house_describe :
  HouseBuilder.describe (fun _ => "4") HouseBuilder.wooden_house
  = "Дом с деревянными стенами, деревянной крышей, 4 окнами и гаражом".
Proof. reflexivity. Qed.

(** ** The file processor *)

Section FileProcessingFacts.
Import JS FileProcessing.
Context {result : Type}.

Lemma readData_not_overridden (this : receiver result) :
  overrides_readData this = false ->
  readData this = FileProcessor_readData.
Proof.
  induction this as [|body ancestors IH]; cbn; [reflexivity|].
  intros [Hbody Hrest]%orb_false_elim.
  destruct (readData_decl body); [discriminate Hbody | exact (IH Hrest)].
Qed.

Lemma processData_not_overridden (this : receiver result) (data : string) :
  overrides_processData this = false ->
  processData this data = FileProcessor_processData result data.
Proof.
  induction this as [|body ancestors IH]; cbn; [reflexivity|].
  intros [Hbody Hrest]%orb_false_elim.
  destruct (processData_decl body); [discriminate Hbody | exact (IH Hrest)].
Qed.


End FileProcessingFacts.


(** ** Publishing news, resetting observers, cache hits and failures *)

Section MoreObserverFacts.
Import JS.

Lemma notify_lines (subs : list loc) (news : option string) (w : News.world) :
  Forall (fun sub => is_Some (News.heap w !! sub)) subs ->
  exists lines,
    forEach subs (fun sub => News.update sub news) w
    = (Normal tt,
       {| News.heap := News.heap w; News.console := News.console w ++ lines |})
    /\ Forall2 (fun sub line => News.line_of w news sub = Some line)
         subs lines.
Proof.
  revert w. induction subs as [|sub subs IH]; intros w Hall.
  - exists []. split; [|constructor]. cbn. rewrite app_nil_r. by destruct w.
  - apply Forall_cons in Hall as [[this Hthis] Hall].
    set (w1 := {| News.heap := News.heap w;
                  News.console :=
                    News.console w ++ [News.NewsSubscriber_line this news] |}).
    destruct (IH w1 Hall) as (lines & Hrun & Hlines).
    exists (News.NewsSubscriber_line this news :: lines). split.
    + cbn [forEach]. unfold bind, News.update at 1. rewrite Hthis.
      fold w1. rewrite Hrun. cbn. by rewrite <- app_assoc.
    + constructor; [|exact Hlines]. unfold News.line_of. by rewrite Hthis.
Qed.

(** X17. [setNews(text)] stores the text before it notifies: the
    publisher it leaves has the new text and the same subscribers, and
    every subscription, in order, has printed its subscriber's line for
    the new text, whatever the news was before. *)
Theorem setNews_publishes (publisher : News.NewsPublisher) (text : string)
    (w : News.world) :
  News.subscribed_alive publisher w ->
  exists lines,
    News.setNews publisher text w
    = (Normal {| News.subscribers := News.subscribers publisher;
                 News.news := Some text |},
       {| News.heap := News.heap w; News.console := News.console w ++ lines |})
    /\ Forall2 (fun sub line => News.line_of w (Some text) sub = Some line)
         (News.subscribers publisher) lines.
Proof.
  intros Halive.
  destruct (notify_lines (News.subscribers publisher) (Some text) w Halive)
    as (lines & Hrun & Hlines).
  exists lines. split; [|exact Hlines].
  unfold News.setNews, News.notify, bind. cbn. by rewrite Hrun.
Qed.

Lemma setNews_publishes_witness :
  let vasya : loc := 1%positive in
  let petya : loc := 2%positive in
  let w := {| News.heap := {[ vasya := {| News.name := "A" |};
                              petya := {| News.name := "B" |} ]};
              News.console := [] |} in
  let publisher :=
    News.unsubscribe
      (News.subscribe (News.subscribe News.new_NewsPublisher vasya) petya)
      petya in
  exists lines,
    News.console (News.setNews publisher "ok" w).2 = lines
    /\ length lines = 1.
Proof.
  intros vasya petya w publisher.
  destruct (setNews_publishes publisher "ok" w) as (lines & Hrun & Hlines).
  { apply (bool_decide_unpack _). vm_compute. exact I. }
  exists lines. rewrite Hrun. split; [reflexivity|].
  symmetry. exact (Forall2_length _ _ _ Hlines).
Defined.

Import ObserverPattern.

Lemma reset_iter (this : Observer) (a : action) (n : nat) :
  type a <> "PLUS" -> type a <> "MINUS" -> type a <> "MULTI_PLUS" ->
  0 < n ->
  Nat.iter n (fun x => Observer_update x a) this
  = {| state := initialState this; initialState := initialState this |}.
Proof.
  intros H1 H2 H3 Hn.
  assert (Hreset : forall x,
            Observer_update x a
            = {| state := initialState x; initialState := initialState x |}).
  { intros x. unfold Observer_update.
    by rewrite (proj2 (String.eqb_neq _ _) H1),
      (proj2 (String.eqb_neq _ _) H2), (proj2 (String.eqb_neq _ _) H3). }
  destruct n as [|n]; [lia|]. clear Hn.
  induction n as [|n IH]; [apply Hreset|].
  change (Nat.iter (S (S n)) (fun x => Observer_update x a) this)
    with (Observer_update
            (Nat.iter (S n) (fun x => Observer_update x a) this) a).
  rewrite IH. by rewrite Hreset.
Qed.

(** X18. Firing an action of an unrecognised type resets the whole
    audience: every subscribed observer, however many times it is
    subscribed and whatever its state, ends in its initial state, and
    the objects that are not subscribed are left as they were. *)
Theorem fire_unrecognised_resets (stream : Subject) (a : action) (w : world) :
  subscribed_alive stream w ->
  type a <> "PLUS" -> type a <> "MINUS" -> type a <> "MULTI_PLUS" ->
  let w' := (fire stream a w).2 in
  (forall o this,
      o ∈ observers stream ->
      heap w !! o = Some this ->
      heap w' !! o
      = Some {| state := initialState this;
                initialState := initialState this |})
  /\ (forall o, o ∉ observers stream -> heap w' !! o = heap w !! o).
Proof.
  intros Halive H1 H2 H3 w'.
  pose proof (forEach_update_heap (observers stream) a w Halive) as Hheap.
  split.
  - intros o this Hin Hthis. unfold w', fire. rewrite Hheap, Hthis. cbn.
    f_equal. apply reset_iter; try done. by apply occurrences_elem_of.
  - intros o Hnot. unfold w', fire. rewrite Hheap.
    assert (Hzero : occurrences o (observers stream) = 0).
    { destruct (occurrences o (observers stream)) eqn:Hocc; [done|].
      exfalso. apply Hnot, occurrences_elem_of. lia. }
    rewrite Hzero. cbn. by destruct (heap w !! o).
Qed.

Lemma fire_unrecognised_resets_witness :
  let obs1 : loc := 1%positive in
  let reset := {| type := "RESET"; value := None |} in
  let stream := subscribe (subscribe new_Subject obs1) obs1 in
  let w := {| heap := {[ obs1 := {| state := of_Z 7;
                                    initialState := of_Z 1 |} ]};
              calls := [] |} in
  state <$> heap (fire stream reset w).2 !! obs1 = Some (of_Z 1).
Proof.
  intros obs1 reset stream w.
  destruct (fire_unrecognised_resets stream reset w) as [Hreset _];
    try discriminate.
  { apply (bool_decide_unpack _). vm_compute. exact I. }
  rewrite (Hreset obs1 {| state := of_Z 7; initialState := of_Z 1 |});
    [reflexivity | | reflexivity].
  apply (bool_decide_unpack _). vm_compute. exact I.
Defined.

End MoreObserverFacts.

Section CacheEdgeFacts.
Import JS CacheDecorator.
Context {args result : Type}.
Variable stringify : args -> string.


End CacheEdgeFacts.

